(** * server.js: chain-event bridge with polling lookup

    A Rocq model of [src/server.js]: the [UrlEvent] collection, the
    [WebsiteUrlReturned] listener started by [startEventListener], and the
    [POST /api/get-website] handler with its self-rescheduling [checkUrl].

    JavaScript values are modelled as follows: numbers that the server only
    counts with or subtracts ([attempts], [Date.now()]) are [Z]; a string
    that may be [undefined] is [option string]; a document of the collection
    is a record; the collection is the list of its documents in natural
    (insertion) order.  Callbacks run to completion, so every handler is a
    function on the state it touches, and what it does to the outside
    (console, response object, timers) is the list of its effects. *)

From Stdlib Require Import ZArith NArith List String Bool Lia.
Import ListNotations.

Local Open Scope string_scope.
Local Open Scope list_scope.
Local Open Scope Z_scope.

(** ** The [UrlEvent] model (urlEventSchema) *)

Module UrlEvent.

(** A stored document.  [timestamp] and [processedAt] are [Date]s, kept
    as milliseconds since the epoch. *)
Record t : Type := mk {
  userAddress : string;
  url : string;
  transactionHash : string;
  timestamp : Z;
  processedAt : Z
}.

(** [new UrlEvent({ userAddress, url, transactionHash })]: the two dates
    are not given and take the schema default [Date.now]. *)
Definition new (now : Z) (user url hash : string) : t :=
  {| userAddress := user;
     url := url;
     transactionHash := hash;
     timestamp := now;
     processedAt := now |}.

Definition Collection : Type := list t.

(** [await doc.save()] when the write is acknowledged. *)
Definition save (doc : t) (c : Collection) : Collection := c ++ [doc].

Definition hasHash (hash : string) (doc : t) : bool :=
  String.eqb (transactionHash doc) hash.

(** [UrlEvent.findOne({ transactionHash })].  With a string the first
    document in natural order carrying that hash is returned.  When the
    value is [undefined] the answer depends on the driver option
    [ignoreUndefined], which server.js leaves to the library: if the key
    is ignored the filter is empty and the first document matches; if it
    is sent as [null] it matches documents without a hash, and every
    [t] has one. *)
Definition findOne (ignoreUndefined : bool) (filter : option string)
           (c : Collection) : option t :=
  match filter with
  | Some hash => find (hasHash hash) c
  | None => if ignoreUndefined then hd_error c else None
  end.

End UrlEvent.

(** ** Console, responses and effects *)

Inductive LogLine : Type :=
| LogRequest (hash : option string)
| LogFound (hash : option string) (url : string) (processTime : Z)
| LogAttempt (attempts maxAttempts : Z) (hash : option string)
| LogTimeout (hash : option string)
| LogRequestError (error : string)
| LogListening
| LogListenerConnected (subscriptionId : string)
| LogNewEvent (url : string)
| LogSaved (hash url : string)
| LogSaveError (error : string)
| LogChanged (hash : string)
| LogListenerError (error : string)
| LogRestarting
| LogProviderConnect
| LogProviderError (error : string)
| LogProviderEnd
| LogUnhandled (error : string)
| LogSigterm
| LogMongoClosed
| LogCloseError (error : string)
| LogServerRunning
| LogMongoConnected
| LogMongoError (error : string)
| LogMongoDisconnected
| LogSystemReady
| LogInitFailed (error : string).

(** JSON bodies the server writes. *)
Inductive Body : Type :=
| UrlBody (url : string) (processTime : Z) (timestamp : Z)
| NotFoundBody (error : string) (attempts : Z) (processTime : Z)
| ErrorBody (error : string)
| HealthBody (status : string) (timestamp : Z) (mongoStatus web3Status : string).

Record Response : Type := { status : Z; body : Body }.

Inductive Effect : Type :=
| ConsoleLog (line : LogLine)
| ResJson (r : Response)              (* res.status(s).json(b); res.json(b) has status 200 *)
| SetTimeoutCheckUrl (delay : Z)      (* setTimeout(checkUrl, delay) *)
| PromiseRejected (error : string).   (* the promise of the async call rejects *)

Definition sentOf (e : Effect) : list Response :=
  match e with ResJson r => [r] | _ => [] end.

Definition delayOf (e : Effect) : list Z :=
  match e with SetTimeoutCheckUrl d => [d] | _ => [] end.

Definition rejectionOf (e : Effect) : list string :=
  match e with PromiseRejected m => [m] | _ => [] end.

(** Responses written, timers set and rejections raised by a list of effects. *)
Definition sent (es : list Effect) : list Response := flat_map sentOf es.
Definition scheduled (es : list Effect) : list Z := flat_map delayOf es.
Definition rejections (es : list Effect) : list string := flat_map rejectionOf es.

(** ** POST /api/get-website *)

(** What [await UrlEvent.findOne(...)] gives back to [checkUrl]. *)
Inductive QueryResult : Type :=
| Resolved (event : option UrlEvent.t)   (* a document, or null *)
| Rejected (error : string).             (* the store call failed *)

(** The variables of one request that [checkUrl] closes over. *)
Record Closure : Type := {
  transactionHash : option string;   (* req.body.transactionHash *)
  startTime : Z;
  attempts : Z
}.

Definition maxAttempts : Z := 30.

Definition notFoundMessage : string := "URL não encontrada".

(** One invocation of [checkUrl], from the point where the awaited query
    settles; [now] is what [Date.now()] returns there. *)
Definition checkUrl (q : QueryResult) (now : Z) (c : Closure)
  : Closure * list Effect :=
  match q with
  | Rejected error => (c, [PromiseRejected error])
  | Resolved (Some event) =>
      let processTime := now - startTime c in
      (c, [ConsoleLog (LogFound (transactionHash c) (UrlEvent.url event) processTime);
           ResJson {| status := 200;
                      body := UrlBody (UrlEvent.url event) processTime
                                      (UrlEvent.timestamp event) |}])
  | Resolved None =>
      let c := {| transactionHash := transactionHash c;
                  startTime := startTime c;
                  attempts := attempts c + 1 |} in
      let line := ConsoleLog (LogAttempt (attempts c) maxAttempts (transactionHash c)) in
      if attempts c >=? maxAttempts then
        (c, [line;
             ConsoleLog (LogTimeout (transactionHash c));
             ResJson {| status := 404;
                        body := NotFoundBody notFoundMessage (attempts c)
                                             (now - startTime c) |}])
      else
        (c, [line; SetTimeoutCheckUrl 1000])
  end.

(** How a call returns to the statement that made it. *)
Inductive Completion : Type :=
| Returned
| Threw (error : string).

(** [checkUrl()] as the handler calls it: [checkUrl] is an async function
    and the call is not awaited, so the caller gets a promise back whatever
    happens inside; a failure rejects that promise. *)
Definition callCheckUrl : Completion := Returned.

(** The route handler up to the first suspension: it reads the clock and
    the body, starts [checkUrl] inside [try], and answers 500 from [catch]. *)
Definition postGetWebsite (now : Z) (bodyTransactionHash : option string)
  : Closure * list Effect :=
  let c := {| transactionHash := bodyTransactionHash;
              startTime := now;
              attempts := 0 |} in
  (c, ConsoleLog (LogRequest bodyTransactionHash) ::
      match callCheckUrl with
      | Returned => []
      | Threw error =>
          [ConsoleLog (LogRequestError error);
           ResJson {| status := 500; body := ErrorBody error |}]
      end).

(** *** The polling loop of one request *)

(** What the surroundings decide for the [i]-th invocation: the outcome of
    the query, how long the query takes, and by how much the timer set at
    the end fires late.  Times are readings of the clock behind
    [Date.now()].  The model assumes that this clock is not set back while
    a request is polling and that a timer never fires early: both amounts
    are in [N].  Nothing in server.js enforces the first; where a statement
    depends on it, it says so. *)
Record PollEnv : Type := {
  result : QueryResult;
  latency : N;
  lateness : N
}.

Record Invocation : Type := {
  inv_start : Z;            (* when the query is issued *)
  inv_now : Z;              (* when the query settles and the rest runs *)
  inv_closure : Closure;    (* the closure afterwards *)
  inv_effects : list Effect
}.

(** The event loop restricted to one request: run an invocation, and when
    it set a timer, run the next one once the timer has fired.  [fuel]
    bounds the number of invocations. *)
Fixpoint pollLoop (fuel : nat) (env : nat -> PollEnv) (i : nat) (t : Z)
         (c : Closure) : list Invocation :=
  match fuel with
  | O => []
  | S fuel' =>
      let e := env i in
      let now := t + Z.of_N (latency e) in
      let '(c', effects) := checkUrl (result e) now c in
      let inv := {| inv_start := t; inv_now := now;
                    inv_closure := c'; inv_effects := effects |} in
      match scheduled effects with
      | delay :: _ =>
          inv :: pollLoop fuel' env (S i) (now + delay + Z.of_N (lateness e)) c'
      | [] => [inv]
      end
  end.

(** A whole request: the handler, then the loop.  [maxAttempts] invocations
    are always enough (see [pollLoop_fuel]). *)
Definition lookup (env : nat -> PollEnv) (t0 : Z) (hash : option string)
  : list Effect * list Invocation :=
  let '(c, effects) := postGetWebsite t0 hash in
  (effects, pollLoop (Z.to_nat maxAttempts) env 0 t0 c).

(** Everything the request did, in order. *)
Definition allEffects (r : list Effect * list Invocation) : list Effect :=
  fst r ++ flat_map inv_effects (snd r).

Definition responses (r : list Effect * list Invocation) : list Response :=
  sent (allEffects r).

(** *** The timeline of a request that keeps polling *)

(** When the [k]-th query is issued, if all earlier ones came back empty:
    each earlier round took its query latency, the 1000 ms of the timer and
    the timer's lateness. *)
Fixpoint startAt (env : nat -> PollEnv) (t0 : Z) (k : nat) : Z :=
  match k with
  | O => t0
  | S k' =>
      startAt env t0 k' + Z.of_N (latency (env k')) + 1000
      + Z.of_N (lateness (env k'))
  end.

Definition settledAt (env : nat -> PollEnv) (t0 : Z) (k : nat) : Z :=
  startAt env t0 k + Z.of_N (latency (env k)).

(** The closure after [k] empty polls. *)
Definition closureAt (hash : option string) (t0 : Z) (k : nat) : Closure :=
  {| transactionHash := hash; startTime := t0; attempts := Z.of_nat k |}.

(** The invocation record of an empty poll that is not the last one. *)
Definition emptyPoll (env : nat -> PollEnv) (t0 : Z) (hash : option string)
           (k : nat) : Invocation :=
  {| inv_start := startAt env t0 k;
     inv_now := settledAt env t0 k;
     inv_closure := closureAt hash t0 (S k);
     inv_effects :=
       [ConsoleLog (LogAttempt (Z.of_nat (S k)) maxAttempts hash);
        SetTimeoutCheckUrl 1000] |}.

(** The record of the poll that gives up. *)
Definition lastPoll (env : nat -> PollEnv) (t0 : Z) (hash : option string)
           (k : nat) : Invocation :=
  {| inv_start := startAt env t0 k;
     inv_now := settledAt env t0 k;
     inv_closure := closureAt hash t0 (S k);
     inv_effects :=
       [ConsoleLog (LogAttempt (Z.of_nat (S k)) maxAttempts hash);
        ConsoleLog (LogTimeout hash);
        ResJson {| status := 404;
                   body := NotFoundBody notFoundMessage (Z.of_nat (S k))
                                        (settledAt env t0 k - t0) |}] |}.

(** The record of the poll that finds [event]. *)
Definition foundPoll (env : nat -> PollEnv) (t0 : Z) (hash : option string)
           (k : nat) (event : UrlEvent.t) : Invocation :=
  {| inv_start := startAt env t0 k;
     inv_now := settledAt env t0 k;
     inv_closure := closureAt hash t0 k;
     inv_effects :=
       [ConsoleLog (LogFound hash (UrlEvent.url event) (settledAt env t0 k - t0));
        ResJson {| status := 200;
                   body := UrlBody (UrlEvent.url event) (settledAt env t0 k - t0)
                                   (UrlEvent.timestamp event) |}] |}.

(** The record of a poll whose query fails. *)
Definition failedPoll (env : nat -> PollEnv) (t0 : Z) (hash : option string)
           (k : nat) (error : string) : Invocation :=
  {| inv_start := startAt env t0 k;
     inv_now := settledAt env t0 k;
     inv_closure := closureAt hash t0 k;
     inv_effects := [PromiseRejected error] |}.

(** ** The server as a whole *)

(** A [WebsiteUrlReturned] log as the subscription delivers it. *)
Record ContractEvent : Type := {
  returnValues_user : string;
  returnValues_url : string;
  event_transactionHash : string
}.

(** How [await urlEvent.save()] ends. *)
Inductive SaveResult : Type :=
| Saved
| SaveFailed (error : string).

Inductive Callback : Type :=
| CheckUrlOf (request : nat)     (* the checkUrl closure of a request *)
| StartEventListener.

Record Timer : Type := { delay : Z; callback : Callback }.

(** The state the callbacks of server.js share.  Requests are told apart by
    a number; [closures] holds the variables of each request's [checkUrl]
    (latest binding first) and [querying] the requests whose [checkUrl] is
    suspended at its [await]. *)
Record Server : Type := {
  urlEvents : UrlEvent.Collection;
  subscriptions : nat;                 (* listeners opened on WebsiteUrlReturned *)
  timers : list Timer;                 (* setTimeout calls not yet fired *)
  console : list LogLine;
  closures : list (nat * Closure);
  querying : list nat;
  answered : list (nat * Response);    (* what was written to each res *)
  exited : option Z                    (* process.exit(code) *)
}.

Definition boot : Server :=
  {| urlEvents := []; subscriptions := 0; timers := []; console := [];
     closures := []; querying := []; answered := []; exited := None |}.

Definition log (lines : list LogLine) (s : Server) : Server :=
  {| urlEvents := urlEvents s; subscriptions := subscriptions s;
     timers := timers s; console := console s ++ lines;
     closures := closures s; querying := querying s;
     answered := answered s; exited := exited s |}.

Definition setTimeout (cb : Callback) (ms : Z) (s : Server) : Server :=
  {| urlEvents := urlEvents s; subscriptions := subscriptions s;
     timers := timers s ++ [{| delay := ms; callback := cb |}];
     console := console s;
     closures := closures s; querying := querying s;
     answered := answered s; exited := exited s |}.

Definition respond (request : nat) (r : Response) (s : Server) : Server :=
  {| urlEvents := urlEvents s; subscriptions := subscriptions s;
     timers := timers s; console := console s;
     closures := closures s; querying := querying s;
     answered := answered s ++ [(request, r)]; exited := exited s |}.

Definition store (doc : UrlEvent.t) (s : Server) : Server :=
  {| urlEvents := UrlEvent.save doc (urlEvents s);
     subscriptions := subscriptions s;
     timers := timers s; console := console s;
     closures := closures s; querying := querying s;
     answered := answered s; exited := exited s |}.

Definition suspend (request : nat) (c : Closure) (s : Server) : Server :=
  {| urlEvents := urlEvents s; subscriptions := subscriptions s;
     timers := timers s; console := console s;
     closures := (request, c) :: closures s;
     querying := request :: querying s;
     answered := answered s; exited := exited s |}.

Definition resume (request : nat) (c : Closure) (s : Server) : Server :=
  {| urlEvents := urlEvents s; subscriptions := subscriptions s;
     timers := timers s; console := console s;
     closures := (request, c) :: closures s;
     querying := filter (fun r => negb (Nat.eqb r request)) (querying s);
     answered := answered s; exited := exited s |}.

Definition dropNth {A : Type} (i : nat) (l : list A) : list A :=
  firstn i l ++ skipn (S i) l.

Definition clearTimer (i : nat) (s : Server) : Server :=
  {| urlEvents := urlEvents s; subscriptions := subscriptions s;
     timers := dropNth i (timers s); console := console s;
     closures := closures s; querying := querying s;
     answered := answered s; exited := exited s |}.

Definition exit (code : Z) (s : Server) : Server :=
  {| urlEvents := urlEvents s; subscriptions := subscriptions s;
     timers := timers s; console := console s;
     closures := closures s; querying := querying s;
     answered := answered s; exited := Some code |}.

Definition closureOf (request : nat) (s : Server) : option Closure :=
  option_map snd (find (fun rc => Nat.eqb (fst rc) request) (closures s)).

(** *** createWeb3WSProvider: the three provider callbacks

    These are the bodies of the callbacks server.js registers on the
    provider.  When the provider emits ['error'], web3 also calls the
    ['error'] callback of every open subscription; that callback is
    [onError] below, and the two together are [transportError]. *)

Definition onProviderConnect (s : Server) : Server := log [LogProviderConnect] s.

Definition onProviderError (error : string) (s : Server) : Server :=
  log [LogProviderError error] s.

Definition onProviderEnd (s : Server) : Server := log [LogProviderEnd] s.

(** *** startEventListener and the callbacks it registers *)

Definition startEventListener (s : Server) : Server :=
  let s := log [LogListening] s in
  {| urlEvents := urlEvents s; subscriptions := S (subscriptions s);
     timers := timers s; console := console s;
     closures := closures s; querying := querying s;
     answered := answered s; exited := exited s |}.

Definition onConnected (subscriptionId : string) (s : Server) : Server :=
  log [LogListenerConnected subscriptionId] s.

(** The ['data'] callback, taken as one step: the document is built with
    the clock at [now], and [saved] says how the write ended. *)
Definition onData (now : Z) (event : ContractEvent) (saved : SaveResult)
           (s : Server) : Server :=
  let s := log [LogNewEvent (returnValues_url event)] s in
  let urlEvent := UrlEvent.new now (returnValues_user event)
                               (returnValues_url event)
                               (event_transactionHash event) in
  match saved with
  | Saved =>
      log [LogSaved (event_transactionHash event) (returnValues_url event)]
          (store urlEvent s)
  | SaveFailed error => log [LogSaveError error] s
  end.

Definition onChanged (event : ContractEvent) (s : Server) : Server :=
  log [LogChanged (event_transactionHash event)] s.

Definition onError (error : string) (s : Server) : Server :=
  setTimeout StartEventListener 5000
             (log [LogListenerError error; LogRestarting] s).

(** *** The routes *)

(** What an effect of a request's code does to the server.  A rejected
    promise nobody awaits reaches [process.on('unhandledRejection')]. *)
Definition perform (request : nat) (s : Server) (e : Effect) : Server :=
  match e with
  | ConsoleLog line => log [line] s
  | ResJson r => respond request r s
  | SetTimeoutCheckUrl ms => setTimeout (CheckUrlOf request) ms s
  | PromiseRejected error => log [LogUnhandled error] s
  end.

Definition performAll (request : nat) (es : list Effect) (s : Server) : Server :=
  fold_left (perform request) es s.

Definition onPostGetWebsite (now : Z) (request : nat) (hash : option string)
           (s : Server) : Server :=
  let '(c, es) := postGetWebsite now hash in
  suspend request c (performAll request es s).

(** The query a suspended [checkUrl] waits for settles: with what the
    collection holds, or with a failure. *)
Definition onQuerySettled (ignoreUndefined : bool) (now : Z) (request : nat)
           (failure : option string) (s : Server) : Server :=
  match closureOf request s with
  | Some c =>
      if existsb (Nat.eqb request) (querying s) then
        let q := match failure with
                 | Some error => Rejected error
                 | None => Resolved (UrlEvent.findOne ignoreUndefined
                                       (transactionHash c) (urlEvents s))
                 end in
        let '(c', es) := checkUrl q now c in
        performAll request es (resume request c' s)
      else s
  | None => s
  end.

Definition healthStatus (up : bool) : string :=
  if up then "connected" else "disconnected".

Definition onGetHealth (now : Z) (request : nat) (readyState : Z)
           (connected : bool) (s : Server) : Server :=
  respond request
          {| status := 200;
             body := HealthBody "ok" now (healthStatus (readyState =? 1))
                                (healthStatus connected) |} s.

(** *** Timers and process events *)

Definition onTimer (i : nat) (s : Server) : Server :=
  match nth_error (timers s) i with
  | Some timer =>
      let s := clearTimer i s in
      match callback timer with
      | StartEventListener => startEventListener s
      | CheckUrlOf request =>
          match closureOf request s with
          | Some c => suspend request c s
          | None => s
          end
      end
  | None => s
  end.

Definition onUnhandledRejection (error : string) (s : Server) : Server :=
  log [LogUnhandled error] s.

Definition onSigterm (closeError : option string) (s : Server) : Server :=
  let s := log [LogSigterm] s in
  match closeError with
  | None => exit 0 (log [LogMongoClosed] s)
  | Some error => exit 1 (log [LogCloseError error] s)
  end.

(** *** mongoose.connection callbacks and the outcome of mongoose.connect *)

Definition onMongoConnected (s : Server) : Server := log [LogMongoConnected] s.

Definition onMongoError (error : string) (s : Server) : Server :=
  log [LogMongoError error] s.

Definition onMongoDisconnected (s : Server) : Server :=
  log [LogMongoDisconnected] s.

Definition onConnectSettled (failure : option string) (s : Server) : Server :=
  match failure with
  | None => log [LogSystemReady] s
  | Some error => log [LogInitFailed error] s
  end.

(** The callback of [app.listen]. *)
Definition onListening (s : Server) : Server :=
  startEventListener (log [LogServerRunning] s).

(** *** The event loop *)

Inductive Event : Type :=
| Listening                                   (* app.listen callback *)
| ProviderConnect
| ProviderError (error : string)
| ProviderEnd
| ListenerConnected (subscriptionId : string)
| ListenerData (event : ContractEvent) (saved : SaveResult)
| ListenerChanged (event : ContractEvent)
| ListenerError (error : string)
| PostGetWebsite (request : nat) (hash : option string)
| QuerySettled (request : nat) (failure : option string)
| GetHealth (request : nat) (readyState : Z) (connected : bool)
| TimerFires (i : nat)
| UnhandledRejection (error : string)
| Sigterm (closeError : option string)
| MongoConnected
| MongoError (error : string)
| MongoDisconnected
| ConnectSettled (failure : option string).

(** One turn of the loop at clock [now]; nothing runs after [process.exit]. *)
Definition step (ignoreUndefined : bool) (s : Server) (turn : Z * Event) : Server :=
  let '(now, e) := turn in
  match exited s with
  | Some _ => s
  | None =>
      match e with
      | Listening => onListening s
      | ProviderConnect => onProviderConnect s
      | ProviderError error => onProviderError error s
      | ProviderEnd => onProviderEnd s
      | ListenerConnected id => onConnected id s
      | ListenerData event saved => onData now event saved s
      | ListenerChanged event => onChanged event s
      | ListenerError error => onError error s
      | PostGetWebsite request hash => onPostGetWebsite now request hash s
      | QuerySettled request failure =>
          onQuerySettled ignoreUndefined now request failure s
      | GetHealth request readyState connected =>
          onGetHealth now request readyState connected s
      | TimerFires i => onTimer i s
      | UnhandledRejection error => onUnhandledRejection error s
      | Sigterm closeError => onSigterm closeError s
      | MongoConnected => onMongoConnected s
      | MongoError error => onMongoError error s
      | MongoDisconnected => onMongoDisconnected s
      | ConnectSettled failure => onConnectSettled failure s
      end
  end.

Definition run (ignoreUndefined : bool) (turns : list (Z * Event)) (s : Server)
  : Server :=
  fold_left (step ignoreUndefined) turns s.

(** The subscriber waits to restart: a [setTimeout(startEventListener, 5000)]
    has not fired yet. *)
Definition recovering (s : Server) : Prop :=
  In {| delay := 5000; callback := StartEventListener |} (timers s).

Definition restartTimer : Timer :=
  {| delay := 5000; callback := StartEventListener |}.

(** A transport-level error as the program sees it: the provider emits
    ['error'], which runs the provider's own callback, and web3 hands the
    error to every open subscription, which runs its ['error'] callback. *)
Definition transportError (now : Z) (error : string) (s : Server)
  : list (Z * Event) :=
  (now, ProviderError error)
    :: repeat (now, ListenerError error) (subscriptions s).

(** What was written to the response object of [request]. *)
Definition answersTo (request : nat) (s : Server) : list Response :=
  map snd (filter (fun a => Nat.eqb (fst a) request) (answered s)).

(** The server state with the console wiped. *)
Definition forgetConsole (s : Server) : Server :=
  {| urlEvents := urlEvents s; subscriptions := subscriptions s;
     timers := timers s; console := [];
     closures := closures s; querying := querying s;
     answered := answered s; exited := exited s |}.

(** ** Sample inputs *)

(** A store that never holds the record asked for; a query takes 4 ms and
    timers fire 1 ms late. *)
Definition neverFound : nat -> PollEnv :=
  fun _ => {| result := Resolved None; latency := 4; lateness := 1 |}.

(** A stored record. *)
Definition exampleRecord : UrlEvent.t :=
  {| UrlEvent.userAddress := "0xUser";
     UrlEvent.url := "https://example.com/page";
     UrlEvent.transactionHash := "0xABC";
     UrlEvent.timestamp := 3200;
     UrlEvent.processedAt := 3200 |}.

(** The record shows up while the request is already polling: three empty
    polls, then the fourth finds it; queries are instant and timers punctual. *)
Definition foundAtFourth : nat -> PollEnv :=
  fun i => {| result := if (i <? 3)%nat then Resolved None
                        else Resolved (Some exampleRecord);
              latency := 0; lateness := 0 |}.

(** A store whose connection is lost. *)
Definition storeDown : nat -> PollEnv :=
  fun _ => {| result := Rejected "connection lost"; latency := 10; lateness := 0 |}.

(** A notification of the contract. *)
Definition exampleEvent : ContractEvent :=
  {| returnValues_user := "0xUser";
     returnValues_url := "https://example.com/page";
     event_transactionHash := "0xABC" |}.

(** A request that arrives at 0 for a record saved at 2500, between its
    third and fourth poll. *)
Definition savedMidPoll : list (Z * Event) :=
  [(0, Listening);
   (0, PostGetWebsite 1 (Some "0xABC"));
   (2, QuerySettled 1 None);
   (1002, TimerFires 0); (1004, QuerySettled 1 None);
   (2004, TimerFires 0); (2006, QuerySettled 1 None);
   (2500, ListenerData exampleEvent Saved);
   (3006, TimerFires 0); (3008, QuerySettled 1 None)].

(** A record of somebody else is in the collection, and a request arrives
    whose body has no [transactionHash]. *)
Definition omittedHash : list (Z * Event) :=
  [(0, Listening);
   (10, ListenerData exampleEvent Saved);
   (20, PostGetWebsite 1 None);
   (22, QuerySettled 1 None)].

(** ** A request polling the collection *)

(** What the surroundings decide for the [i]-th invocation when the store
    is looked at: the collection at the moment of the query, whether the
    call fails, and the two amounts of time of [PollEnv]. *)
Record StorePoll : Type := {
  collectionNow : UrlEvent.Collection;
  queryError : option string;
  queryLatency : N;
  timerLateness : N
}.

(** [await UrlEvent.findOne({ transactionHash })] as [checkUrl] issues it:
    the filter is the [transactionHash] of its closure. *)
Definition findOneFor (ignoreUndefined : bool) (c : Closure) (w : StorePoll)
  : QueryResult :=
  match queryError w with
  | Some error => Rejected error
  | None =>
      Resolved (UrlEvent.findOne ignoreUndefined (transactionHash c)
                                 (collectionNow w))
  end.

(** [pollLoop] with the query answered by the collection. *)
Fixpoint pollStore (fuel : nat) (ignoreUndefined : bool)
         (world : nat -> StorePoll) (i : nat) (t : Z) (c : Closure)
  : list Invocation :=
  match fuel with
  | O => []
  | S fuel' =>
      let w := world i in
      let now := t + Z.of_N (queryLatency w) in
      let '(c', effects) := checkUrl (findOneFor ignoreUndefined c w) now c in
      let inv := {| inv_start := t; inv_now := now;
                    inv_closure := c'; inv_effects := effects |} in
      match scheduled effects with
      | delay :: _ =>
          inv :: pollStore fuel' ignoreUndefined world (S i)
                           (now + delay + Z.of_N (timerLateness w)) c'
      | [] => [inv]
      end
  end.

(** A whole request against the collection: the handler, then the loop. *)
Definition lookupStore (ignoreUndefined : bool) (world : nat -> StorePoll)
           (t0 : Z) (hash : option string) : list Effect * list Invocation :=
  let '(c, effects) := postGetWebsite t0 hash in
  (effects, pollStore (Z.to_nat maxAttempts) ignoreUndefined world 0 t0 c).

(** The answers the collection gives to the filter [hash], poll by poll. *)
Definition oracleOf (ignoreUndefined : bool) (hash : option string)
           (world : nat -> StorePoll) : nat -> PollEnv :=
  fun i =>
    {| result :=
         match queryError (world i) with
         | Some error => Rejected error
         | None =>
             Resolved (UrlEvent.findOne ignoreUndefined hash
                                        (collectionNow (world i)))
         end;
       latency := queryLatency (world i);
       lateness := timerLateness (world i) |}.

(** ** Reading a run *)

(** A query result that ends the polling: a record or a failure. *)
Definition decisive (q : QueryResult) : bool :=
  match q with
  | Resolved None => false
  | _ => true
  end.

(** The first of the polls [i], [i+1], ..., [i+n-1] whose query does not
    come back empty. *)
Fixpoint firstDecisiveFrom (env : nat -> PollEnv) (i n : nat) : option nat :=
  match n with
  | O => None
  | S n' =>
      if decisive (result (env i)) then Some i
      else firstDecisiveFrom env (S i) n'
  end.

(** What a request is answered, read directly off the store's behaviour:
    the first poll among the 30 that does not come back empty decides; if
    there is none the 30th poll gives up. *)
Definition expectedResponses (env : nat -> PollEnv) (t0 : Z) : list Response :=
  match firstDecisiveFrom env 0 (Z.to_nat maxAttempts) with
  | None =>
      [{| status := 404;
          body := NotFoundBody notFoundMessage maxAttempts
                    (settledAt env t0 (Z.to_nat maxAttempts - 1) - t0) |}]
  | Some k =>
      match result (env k) with
      | Resolved (Some event) =>
          [{| status := 200;
              body := UrlBody (UrlEvent.url event) (settledAt env t0 k - t0)
                              (UrlEvent.timestamp event) |}]
      | _ => []
      end
  end.

(** The [processTime] field of a body, when it has one. *)
Definition processTimeOf (b : Body) : option Z :=
  match b with
  | UrlBody _ processTime _ => Some processTime
  | NotFoundBody _ _ processTime => Some processTime
  | _ => None
  end.

(** ** Reading the server state *)

Definition isPollOf (request : nat) (timer : Timer) : bool :=
  match callback timer with
  | CheckUrlOf r => Nat.eqb r request
  | StartEventListener => false
  end.

Definition isRestart (timer : Timer) : bool :=
  match callback timer with
  | StartEventListener => true
  | CheckUrlOf _ => false
  end.

(** Timers of [request]'s [checkUrl] that have not fired. *)
Definition pendingPolls (request : nat) (s : Server) : list Timer :=
  filter (isPollOf request) (timers s).

(** Restarts of the listener that are scheduled and have not fired. *)
Definition pendingRestarts (s : Server) : list Timer :=
  filter isRestart (timers s).

(** Suspended invocations of [request]'s [checkUrl]. *)
Definition inFlight (request : nat) (s : Server) : list nat :=
  filter (Nat.eqb request) (querying s).

(** How much of [request] there is: responses written, timers pending and
    queries in flight. *)
Definition weight (request : nat) (s : Server) : nat :=
  List.length (answersTo request s) + List.length (pendingPolls request s)
  + List.length (inFlight request s).

(** What one request can see of the server. *)
Definition viewOf (request : nat) (s : Server)
  : list Response * option Closure * list nat * list Timer :=
  (answersTo request s, closureOf request s, inFlight request s,
   pendingPolls request s).

(** The turns that belong to the HTTP exchange [request]. *)
Definition turnOf (request : nat) (e : Event) : bool :=
  match e with
  | PostGetWebsite r _ => Nat.eqb r request
  | QuerySettled r _ => Nat.eqb r request
  | GetHealth r _ _ => Nat.eqb r request
  | _ => false
  end.

(** The turns that open the HTTP exchange [request]. *)
Definition opens (request : nat) (e : Event) : bool :=
  match e with
  | PostGetWebsite r _ => Nat.eqb r request
  | GetHealth r _ _ => Nat.eqb r request
  | _ => false
  end.


(** The turns after which one more listener exists or is scheduled. *)
Definition startsListener (turn : Z * Event) : bool :=
  match snd turn with
  | Listening => true
  | ListenerError _ => true
  | _ => false
  end.

(** The requests posted in a sequence of turns, with the hash they carry. *)
Definition postedBy (turn : Z * Event) : list (nat * option string) :=
  match snd turn with
  | PostGetWebsite request hash => [(request, hash)]
  | _ => []
  end.

(** Whether the filter built from [hash] selects [doc]. *)
Definition selects (ignoreUndefined : bool) (hash : option string)
           (doc : UrlEvent.t) : Prop :=
  match hash with
  | Some h => UrlEvent.transactionHash doc = h
  | None => ignoreUndefined = true
  end.

(** The console lines an effect of a request's code ends up as. *)
Definition linesOf (e : Effect) : list LogLine :=
  match e with
  | ConsoleLog line => [line]
  | PromiseRejected error => [LogUnhandled error]
  | _ => []
  end.

(** The timer a [setTimeout(checkUrl, ms)] of [request] leaves behind. *)
Definition pollTimer (request : nat) (ms : Z) : Timer :=
  {| delay := ms; callback := CheckUrlOf request |}.

(** The two kinds of timer server.js sets. *)
Definition knownTimer (timer : Timer) : Prop :=
  (delay timer = 1000 /\ exists request, callback timer = CheckUrlOf request)
  \/ (delay timer = 5000 /\ callback timer = StartEventListener).

(** Every closure the server holds belongs to a request that was posted,
    and carries the hash it was posted with. *)
Definition closuresPosted (posted : list (nat * option string)) (s : Server) : Prop :=
  forall r c, In (r, c) (closures s) -> In (r, transactionHash c) posted.

(** Every body with a URL that was written carries the [url] and
    [timestamp] of a stored record which the hash of its request selects. *)
Definition answersStored (ignoreUndefined : bool)
           (posted : list (nat * option string)) (s : Server) : Prop :=
  forall r resp u p ts,
    In (r, resp) (answered s) ->
    body resp = UrlBody u p ts ->
    exists doc hash,
      In doc (urlEvents s)
      /\ UrlEvent.url doc = u
      /\ UrlEvent.timestamp doc = ts
      /\ In (r, hash) posted
      /\ selects ignoreUndefined hash doc.

(** ** The WebSocket endpoint *)

(** [a || b] on a value that is a string or [undefined]. *)
Definition orElse (a : option string) (b : string) : string :=
  match a with
  | Some EmptyString => b
  | Some s => s
  | None => b
  end.

(** [process.env.BSC_TESTNET_WSS || 'wss://bsc-testnet.publicnode.com'] *)
Definition WSS_ENDPOINT (env_BSC_TESTNET_WSS : option string) : string :=
  orElse env_BSC_TESTNET_WSS "wss://bsc-testnet.publicnode.com".

(** The reconnect options handed to the provider. *)
Record ReconnectOptions : Type := {
  reconnect_auto : bool;
  reconnect_delay : Z;
  reconnect_maxAttempts : Z;
  reconnect_onTimeout : bool
}.

Definition reconnect : ReconnectOptions :=
  {| reconnect_auto := true;
     reconnect_delay := 5000;
     reconnect_maxAttempts := 5;
     reconnect_onTimeout := false |}.

Definition notDefinedMessage : string := "BSC_TESTNET_WSS não está definido".

(** [createWeb3WSProvider()]: throws when the endpoint is falsy, otherwise
    calls [new Web3.providers.WebsocketProvider(WSS_ENDPOINT, { reconnect })]
    and returns what it built.  The constructor belongs to web3 and may
    itself throw (on a string that is no URL); it is the parameter
    [WebsocketProvider], and [inl] is a thrown error. *)
Definition createWeb3WSProvider {Provider : Type}
           (WebsocketProvider : string -> ReconnectOptions -> string + Provider)
           (wss_endpoint : string) : string + Provider :=
  match wss_endpoint with
  | EmptyString => inl notDefinedMessage
  | _ => WebsocketProvider wss_endpoint reconnect
  end.

(** ** More sample inputs *)

(** The collection as the polls of a request see it: empty for the first
    three, then holding [exampleRecord]; queries are instant and timers
    punctual. *)
Definition savedBeforeFourthPoll : nat -> StorePoll :=
  fun i => {| collectionNow := if (i <? 3)%nat then [] else [exampleRecord];
              queryError := None;
              queryLatency := 0; timerLateness := 0 |}.

(** A constructor of the provider that refuses strings without a scheme. *)
Definition sampleWebsocketProvider (url : string) (options : ReconnectOptions)
  : string + (string * ReconnectOptions) :=
  if String.prefix "ws" url then inr (url, options) else inl "Invalid URL".

(** ** Facts about one invocation *)

Section CheckUrl.

Variables (now : Z) (c : Closure).

Lemma checkUrl_again :
  attempts c + 1 < maxAttempts ->
  checkUrl (Resolved None) now c =
  ({| transactionHash := transactionHash c; startTime := startTime c;
      attempts := attempts c + 1 |},
   [ConsoleLog (LogAttempt (attempts c + 1) maxAttempts (transactionHash c));
    SetTimeoutCheckUrl 1000]).
Proof.
  intros Hlt. unfold checkUrl. cbn [attempts transactionHash startTime].
  destruct (Z.geb_spec (attempts c + 1) maxAttempts) as [Hge|_]; [lia|reflexivity].
Qed.

Lemma checkUrl_give_up :
  maxAttempts <= attempts c + 1 ->
  checkUrl (Resolved None) now c =
  ({| transactionHash := transactionHash c; startTime := startTime c;
      attempts := attempts c + 1 |},
   [ConsoleLog (LogAttempt (attempts c + 1) maxAttempts (transactionHash c));
    ConsoleLog (LogTimeout (transactionHash c));
    ResJson {| status := 404;
               body := NotFoundBody notFoundMessage (attempts c + 1)
                                    (now - startTime c) |}]).
Proof.
  intros Hge. unfold checkUrl. cbn [attempts transactionHash startTime].
  destruct (Z.geb_spec (attempts c + 1) maxAttempts) as [_|Hlt]; [reflexivity|lia].
Qed.

(** An invocation that sets a timer writes no response, and one that
    writes a response writes exactly one and sets no timer. *)
Lemma checkUrl_shape (q : QueryResult) :
  let es := snd (checkUrl q now c) in
  (scheduled es = [1000] /\ sent es = [] /\ rejections es = []
   /\ attempts (fst (checkUrl q now c)) = attempts c + 1)
  \/ (scheduled es = [] /\ (List.length (sent es) <= 1)%nat).
Proof.
  destruct q as [[event|]|error]; cbn.
  - right. split; [reflexivity|lia].
  - destruct (attempts c + 1 >=? maxAttempts); cbn.
    + right. split; [reflexivity|lia].
    + left. repeat split; reflexivity.
  - right. split; [reflexivity|lia].
Qed.

(** No invocation answers 500. *)
Lemma checkUrl_never_500 (q : QueryResult) (r : Response) :
  In r (sent (snd (checkUrl q now c))) -> status r = 200 \/ status r = 404.
Proof.
  destruct q as [[event|]|error]; cbn.
  - intros [<-|[]]. now left.
  - destruct (attempts c + 1 >=? maxAttempts); cbn.
    + intros [<-|[]]. now right.
    + intros [].
  - intros [].
Qed.

End CheckUrl.

(** ** Facts about the loop *)

Section PollLoop.

Variable env : nat -> PollEnv.
Variables (t0 : Z) (hash : option string).

Lemma startAt_lower_bound (k : nat) : t0 + Z.of_nat k * 1000 <= startAt env t0 k.
Proof.
  induction k as [|k IH]; [cbn; lia|].
  cbn [startAt]. lia.
Qed.

Lemma settledAt_lower_bound (k : nat) :
  Z.of_nat k * 1000 <= settledAt env t0 k - t0.
Proof.
  unfold settledAt. pose proof (startAt_lower_bound k). lia.
Qed.

(** On time, with instant queries, [k] rounds take [k] seconds. *)
Lemma settledAt_punctual (k : nat) :
  (forall i, (i <= k)%nat -> latency (env i) = 0%N /\ lateness (env i) = 0%N) ->
  settledAt env t0 k - t0 = Z.of_nat k * 1000.
Proof.
  intros H. unfold settledAt.
  destruct (H k (le_n _)) as [-> _].
  assert (Hs : forall j, (j <= k)%nat -> startAt env t0 j = t0 + Z.of_nat j * 1000).
  { induction j as [|j IH]; intros Hj; [cbn; lia|].
    cbn [startAt]. rewrite IH by lia.
    destruct (H j) as [-> ->]; lia. }
  rewrite Hs by lia. cbn. lia.
Qed.


Lemma pollLoop_empty_step (fuel k : nat) :
  result (env k) = Resolved None ->
  (S k < Z.to_nat maxAttempts)%nat ->
  pollLoop (S fuel) env k (startAt env t0 k) (closureAt hash t0 k) =
  emptyPoll env t0 hash k
    :: pollLoop fuel env (S k) (startAt env t0 (S k)) (closureAt hash t0 (S k)).
Proof.
  intros Hq Hk. cbn [pollLoop]. rewrite Hq.
  rewrite checkUrl_again by (cbn; lia).
  cbn [scheduled flat_map delayOf app closureAt attempts transactionHash startTime].
  unfold emptyPoll, settledAt, closureAt. cbn [startAt].
  replace (Z.of_nat k + 1) with (Z.of_nat (S k)) by lia.
  reflexivity.
Qed.

Lemma pollLoop_last_step (fuel k : nat) :
  result (env k) = Resolved None ->
  (Z.to_nat maxAttempts <= S k)%nat ->
  pollLoop (S fuel) env k (startAt env t0 k) (closureAt hash t0 k) =
  [lastPoll env t0 hash k].
Proof.
  intros Hq Hk. cbn [pollLoop]. rewrite Hq.
  rewrite checkUrl_give_up by (cbn; lia).
  cbn [scheduled flat_map delayOf app closureAt attempts transactionHash startTime].
  unfold lastPoll, settledAt, closureAt.
  replace (Z.of_nat k + 1) with (Z.of_nat (S k)) by lia.
  reflexivity.
Qed.

Lemma pollLoop_found_step (fuel k : nat) (event : UrlEvent.t) :
  result (env k) = Resolved (Some event) ->
  pollLoop (S fuel) env k (startAt env t0 k) (closureAt hash t0 k) =
  [foundPoll env t0 hash k event].
Proof. intros Hq. cbn [pollLoop]. rewrite Hq. reflexivity. Qed.

Lemma pollLoop_failed_step (fuel k : nat) (error : string) :
  result (env k) = Rejected error ->
  pollLoop (S fuel) env k (startAt env t0 k) (closureAt hash t0 k) =
  [failedPoll env t0 hash k error].
Proof. intros Hq. cbn [pollLoop]. rewrite Hq. reflexivity. Qed.

(** [n] empty polls in a row, none of them the last allowed one, unfold
    into [n] records followed by the rest of the loop. *)
Lemma pollLoop_empty_prefix (n : nat) : forall (k fuel : nat),
  (forall j, (k <= j < k + n)%nat -> result (env j) = Resolved None) ->
  (k + n < Z.to_nat maxAttempts)%nat ->
  pollLoop (n + fuel) env k (startAt env t0 k) (closureAt hash t0 k) =
  map (emptyPoll env t0 hash) (seq k n)
  ++ pollLoop fuel env (k + n) (startAt env t0 (k + n)) (closureAt hash t0 (k + n)).
Proof.
  induction n as [|n IH]; intros k fuel Hq Hk.
  - rewrite Nat.add_0_r. reflexivity.
  - cbn [Nat.add seq map app].
    rewrite pollLoop_empty_step by (try apply Hq; lia).
    f_equal.
    rewrite IH by (try (intros j Hj; apply Hq); lia).
    now replace (S k + n)%nat with (k + S n)%nat by lia.
Qed.

End PollLoop.

(** ** Termination of the loop *)

Section Termination.

Variable env : nat -> PollEnv.

(** The loop stops by itself: with the attempts still allowed as fuel, more
    fuel changes nothing. *)
Lemma pollLoop_fuel (fuel : nat) : forall (extra i : nat) (t : Z) (c : Closure),
  0 <= attempts c < maxAttempts ->
  maxAttempts - attempts c <= Z.of_nat fuel ->
  pollLoop (fuel + extra) env i t c = pollLoop fuel env i t c.
Proof.
  induction fuel as [|fuel IH]; intros extra i t c Hc Hfuel;
    [unfold maxAttempts in *; lia|].
  cbn [Nat.add pollLoop].
  pose proof (checkUrl_shape (t + Z.of_N (latency (env i))) c (result (env i))) as Hs.
  destruct (checkUrl (result (env i)) (t + Z.of_N (latency (env i))) c) as [c' es] eqn:E.
  cbn [fst snd] in Hs.
  destruct Hs as [(Hd & _ & _ & Ha)|(Hd & _)]; rewrite Hd; [|reflexivity].
  f_equal.
  assert (attempts c' < maxAttempts).
  { destruct (result (env i)) as [[ev|]|err].
    - injection E as <- <-. discriminate Hd.
    - destruct (Z.le_gt_cases maxAttempts (attempts c + 1)) as [Hge|Hlt].
      + rewrite checkUrl_give_up in E by assumption.
        injection E as <- <-. discriminate Hd.
      + rewrite checkUrl_again in E by lia.
        injection E as <- <-. cbn [attempts]. lia.
    - injection E as <- <-. discriminate Hd. }
  apply IH; unfold maxAttempts in *; lia.
Qed.

(** A request writes at most one response, whatever the store does. *)
Lemma pollLoop_single_response (fuel : nat) : forall (i : nat) (t : Z) (c : Closure),
  (List.length (sent (flat_map inv_effects (pollLoop fuel env i t c))) <= 1)%nat.
Proof.
  induction fuel as [|fuel IH]; intros i t c; [cbn; lia|].
  cbn [pollLoop].
  pose proof (checkUrl_shape (t + Z.of_N (latency (env i))) c (result (env i))) as Hs.
  destruct (checkUrl (result (env i)) (t + Z.of_N (latency (env i))) c) as [c' es].
  cbn [fst snd] in Hs.
  destruct Hs as [(Hd & Hsent & _)|(Hd & Hsent)]; rewrite Hd.
  - cbn [flat_map inv_effects]. unfold sent in *.
    rewrite flat_map_app, Hsent. apply IH.
  - cbn [flat_map inv_effects]. unfold sent in *.
    now rewrite app_nil_r.
Qed.

(** Whatever is answered is a 200 or a 404. *)
Lemma pollLoop_statuses (fuel : nat) : forall (i : nat) (t : Z) (c : Closure) (r : Response),
  In r (sent (flat_map inv_effects (pollLoop fuel env i t c))) ->
  status r = 200 \/ status r = 404.
Proof.
  induction fuel as [|fuel IH]; intros i t c r; [intros []|].
  cbn [pollLoop].
  pose proof (checkUrl_never_500 (t + Z.of_N (latency (env i))) c (result (env i)) r) as Hs.
  destruct (checkUrl (result (env i)) (t + Z.of_N (latency (env i))) c) as [c' es].
  cbn [fst snd] in Hs.
  destruct (scheduled es); cbn [flat_map inv_effects]; unfold sent in *;
    rewrite flat_map_app; intros Hin; apply in_app_or in Hin as [Hin|Hin]; auto.
  - destruct Hin.
  - eauto.
Qed.

End Termination.

Lemma responses_lookup (env : nat -> PollEnv) (t0 : Z) (hash : option string) :
  responses (lookup env t0 hash) =
  sent (flat_map inv_effects (snd (lookup env t0 hash))).
Proof. reflexivity. Qed.

Lemma lookup_run (env : nat -> PollEnv) (t0 : Z) (hash : option string) :
  snd (lookup env t0 hash) =
  pollLoop (Z.to_nat maxAttempts) env 0 (startAt env t0 0) (closureAt hash t0 0).
Proof. reflexivity. Qed.

(** More fuel than [maxAttempts] gives the same run. *)
Lemma lookup_fuel (env : nat -> PollEnv) (t0 : Z) (hash : option string) (extra : nat) :
  pollLoop (Z.to_nat maxAttempts + extra) env 0 t0 (closureAt hash t0 0) =
  snd (lookup env t0 hash).
Proof. apply pollLoop_fuel; unfold maxAttempts; cbn [closureAt attempts]; lia. Qed.

(** ** Runs that start with empty polls *)

Section EmptyPrefix.

Variable env : nat -> PollEnv.
Variables (t0 : Z) (hash : option string).

Lemma sent_empty_polls (ks : list nat) :
  sent (flat_map inv_effects (map (emptyPoll env t0 hash) ks)) = [].
Proof. induction ks as [|k ks IH]; [reflexivity|exact IH]. Qed.

Lemma nth_error_empty_polls (n j : nat) (tail : list Invocation) (inv : Invocation) :
  nth_error (map (emptyPoll env t0 hash) (seq 0 n) ++ tail) j = Some inv ->
  ((j < n)%nat /\ inv = emptyPoll env t0 hash j)
  \/ ((n <= j)%nat /\ nth_error tail (j - n) = Some inv).
Proof.
  rewrite nth_error_app, length_map, length_seq.
  destruct (Nat.ltb_spec j n) as [Hlt|Hge]; intros H.
  - left. split; [assumption|].
    rewrite nth_error_map, nth_error_seq in H.
    destruct (Nat.ltb_spec j n); [|lia].
    cbn in H. now injection H as <-.
  - right. now split.
Qed.

(** [k] empty polls, none of them the last allowed, and then whatever the
    loop does at poll [k]. *)
Lemma lookup_empty_prefix (k rest : nat) :
  (forall i, (i < k)%nat -> result (env i) = Resolved None) ->
  (k + S rest = Z.to_nat maxAttempts)%nat ->
  snd (lookup env t0 hash) =
  map (emptyPoll env t0 hash) (seq 0 k)
  ++ pollLoop (S rest) env k (startAt env t0 k) (closureAt hash t0 k).
Proof.
  intros Hq Hk. rewrite lookup_run, <- Hk.
  apply (pollLoop_empty_prefix env t0 hash k 0 (S rest)).
  - intros j Hj. apply Hq. lia.
  - lia.
Qed.


End EmptyPrefix.

(** ** The lookup that never finds its record *)



(** ** The lookup that finds its record *)

(** When the first [k] queries of a lookup come back empty and the
    next one, still within the 30 allowed, returns a record, that invocation
    is the last of the run (no timer is set, [k+1] queries in all) and it
    writes the only response: status 200 with the record's [url], the
    record's [timestamp], and as [processTime] the time from the arrival of
    the request to this poll.  That time is made of the [k] rounds actually
    waited: at least [k] * 1000 ms, and exactly that when queries are instant
    and timers punctual. *)
Lemma found_poll_answers_200
  (env : nat -> PollEnv) (t0 : Z) (hash : option string)
  (k : nat) (event : UrlEvent.t) :
  (k < Z.to_nat maxAttempts)%nat ->
  (forall i, (i < k)%nat -> result (env i) = Resolved None) ->
  result (env k) = Resolved (Some event) ->
  let r := lookup env t0 hash in
  let processTime := settledAt env t0 k - t0 in
  List.length (snd r) = S k
  /\ (exists last,
        nth_error (snd r) k = Some last
        /\ inv_now last = settledAt env t0 k
        /\ scheduled (inv_effects last) = [])
  /\ responses r =
     [{| status := 200;
         body := UrlBody (UrlEvent.url event) processTime
                         (UrlEvent.timestamp event) |}]
  /\ Z.of_nat k * 1000 <= processTime
  /\ ((forall i, (i <= k)%nat -> latency (env i) = 0%N /\ lateness (env i) = 0%N) ->
      processTime = Z.of_nat k * 1000).
Proof.
  intros Hk Hq Hfound r processTime.
  assert (Hrun : snd r = map (emptyPoll env t0 hash) (seq 0 k)
                         ++ [foundPoll env t0 hash k event]).
  { unfold r.
    rewrite (lookup_empty_prefix env t0 hash k (Z.to_nat maxAttempts - S k));
      [|assumption|lia].
    f_equal. now apply pollLoop_found_step. }
  split; [|split; [|split; [|split]]].
  - rewrite Hrun, length_app, length_map, length_seq. cbn. lia.
  - exists (foundPoll env t0 hash k event). repeat split.
    rewrite Hrun, nth_error_app2; rewrite length_map, length_seq; [|lia].
    now rewrite Nat.sub_diag.
  - unfold r. rewrite responses_lookup. fold r. rewrite Hrun.
    rewrite flat_map_app. unfold sent at 1. rewrite flat_map_app.
    fold (sent (flat_map inv_effects (map (emptyPoll env t0 hash) (seq 0 k)))).
    rewrite sent_empty_polls. reflexivity.
  - apply settledAt_lower_bound.
  - apply settledAt_punctual.
Qed.

Lemma found_poll_answers_200_witness :
  responses (lookup foundAtFourth 0 (Some "0xABC")) =
  [{| status := 200; body := UrlBody "https://example.com/page" 3000 3200 |}]
  /\ List.length (snd (lookup foundAtFourth 0 (Some "0xABC"))) = 4%nat.
Proof.
  destruct (found_poll_answers_200 foundAtFourth 0 (Some "0xABC") 3 exampleRecord)
    as (Hlen & _ & Hres & _ & _).
  - vm_compute. lia.
  - intros i Hi. do 3 (destruct i as [|i]; [reflexivity|]). lia.
  - reflexivity.
  - split; [|exact Hlen]. rewrite Hres. reflexivity.
Defined.

(** ** Failures of the store during a lookup *)

(** No request is ever answered 500: the [catch] of the route cannot see a
    failure of [checkUrl], and [checkUrl] itself only writes 200 or 404. *)
Lemma lookup_never_500 (env : nat -> PollEnv) (t0 : Z) (hash : option string)
      (r : Response) :
  In r (responses (lookup env t0 hash)) -> status r = 200 \/ status r = 404.
Proof. rewrite responses_lookup, lookup_run. apply pollLoop_statuses. Qed.

(** C3.  A failure of the store query does not produce a 500.  When the
    first [k] polls of a request come back empty and the next query is
    rejected, the run ends there ([k+1] invocations, no timer set by the
    last), the rejection of [checkUrl] is raised once, to nobody, and no
    response at all is written: the request stays unanswered.  And whatever
    the store does, no request is answered 500. *)
Theorem C3_rejected_query_leaves_request_unanswered
  (env : nat -> PollEnv) (t0 : Z) (hash : option string)
  (k : nat) (error : string) :
  (k < Z.to_nat maxAttempts)%nat ->
  (forall i, (i < k)%nat -> result (env i) = Resolved None) ->
  result (env k) = Rejected error ->
  responses (lookup env t0 hash) = []
  /\ rejections (allEffects (lookup env t0 hash)) = [error]
  /\ (exists last,
        nth_error (snd (lookup env t0 hash)) k = Some last
        /\ List.length (snd (lookup env t0 hash)) = S k
        /\ scheduled (inv_effects last) = [])
  /\ (forall env' t hash' r,
        In r (responses (lookup env' t hash')) -> status r <> 500).
Proof.
  intros Hk Hq Hfail.
  assert (Hrun : snd (lookup env t0 hash)
                 = map (emptyPoll env t0 hash) (seq 0 k)
                   ++ [failedPoll env t0 hash k error]).
  { rewrite (lookup_empty_prefix env t0 hash k (Z.to_nat maxAttempts - S k));
      [|assumption|lia].
    f_equal. now apply pollLoop_failed_step. }
  split; [|split; [|split]].
  - rewrite responses_lookup, Hrun, flat_map_app.
    unfold sent at 1. rewrite flat_map_app.
    fold (sent (flat_map inv_effects (map (emptyPoll env t0 hash) (seq 0 k)))).
    now rewrite sent_empty_polls.
  - unfold allEffects. rewrite Hrun, flat_map_app.
    unfold rejections. rewrite !flat_map_app.
    assert (He : forall ks, flat_map rejectionOf
                   (flat_map inv_effects (map (emptyPoll env t0 hash) ks)) = []).
    { induction ks as [|j ks IH]; [reflexivity|exact IH]. }
    now rewrite He.
  - exists (failedPoll env t0 hash k error). repeat split.
    + rewrite Hrun, nth_error_app2; rewrite length_map, length_seq; [|lia].
      now rewrite Nat.sub_diag.
    + rewrite Hrun, length_app, length_map, length_seq. cbn. lia.
  - intros env' t hash' r Hr.
    destruct (lookup_never_500 env' t hash' r Hr) as [-> | ->]; discriminate.
Qed.

Lemma C3_rejected_query_witness :
  responses (lookup storeDown 0 (Some "0xABC")) = []
  /\ rejections (allEffects (lookup storeDown 0 (Some "0xABC"))) = ["connection lost"]
  /\ scheduled (allEffects (lookup storeDown 0 (Some "0xABC"))) = [].
Proof.
  destruct (C3_rejected_query_leaves_request_unanswered
              storeDown 0 (Some "0xABC") 0 "connection lost")
    as (Hres & Hrej & _ & _).
  - vm_compute. lia.
  - intros i Hi. lia.
  - reflexivity.
  - split; [exact Hres|split; [exact Hrej|reflexivity]].
Defined.

(** ** One response per request *)

(** C10 as worded fails at a poll whose query is rejected: that invocation
    writes nothing and sets no timer either. *)
Lemma C10_rejected_poll_is_neither_branch :
  let es := snd (checkUrl (Rejected "connection lost") 10 (closureAt (Some "0xABC") 0 0)) in
  ~ (((exists r, sent es = [r] /\ (status r = 200 \/ status r = 404))
      /\ scheduled es = [])
     \/ (sent es = [] /\ scheduled es = [1000])).
Proof.
  cbn. intros [[[r [H _]] _]|[_ H]]; discriminate H.
Qed.

(** C10.  A request writes at most one response over its whole life, so a
    200 and a 404 never both occur; and every invocation of [checkUrl] whose
    query returns (a record or null) either writes exactly one response, a
    200 or a 404, and sets no timer, or writes nothing and sets exactly one
    timer, for [checkUrl] after 1000 ms. *)
Theorem C10_at_most_one_response :
  (forall env t0 hash, (List.length (responses (lookup env t0 hash)) <= 1)%nat)
  /\ (forall env t0 hash r1 r2,
        In r1 (responses (lookup env t0 hash)) ->
        In r2 (responses (lookup env t0 hash)) -> r1 = r2)
  /\ (forall event now c,
        let es := snd (checkUrl (Resolved event) now c) in
        ((exists r, sent es = [r] /\ (status r = 200 \/ status r = 404))
         /\ scheduled es = [])
        \/ (sent es = [] /\ scheduled es = [1000])).
Proof.
  assert (Hone : forall env t0 hash,
             (List.length (responses (lookup env t0 hash)) <= 1)%nat).
  { intros env t0 hash. rewrite responses_lookup, lookup_run.
    apply pollLoop_single_response. }
  split; [exact Hone|split].
  - intros env t0 hash r1 r2 H1 H2. specialize (Hone env t0 hash).
    destruct (responses (lookup env t0 hash)) as [|a [|b l]].
    + destruct H1.
    + destruct H1 as [<-|[]], H2 as [<-|[]]. reflexivity.
    + cbn in Hone. lia.
  - intros [event|] now c; cbn.
    + left. split; [|reflexivity]. eexists. split; [reflexivity|now left].
    + destruct (attempts c + 1 >=? maxAttempts); cbn.
      * left. split; [|reflexivity]. eexists. split; [reflexivity|now right].
      * right. split; reflexivity.
Qed.

(** ** The collection *)

Section Collection.

Variable ignoreUndefined : bool.

Lemma find_hasHash_absent (hash : string) (c : UrlEvent.Collection) :
  (forall d, In d c -> UrlEvent.transactionHash d <> hash) ->
  find (UrlEvent.hasHash hash) c = None.
Proof.
  induction c as [|d c IH]; intros Hc; [reflexivity|].
  cbn [find]. unfold UrlEvent.hasHash at 1.
  destruct (String.eqb_spec (UrlEvent.transactionHash d) hash) as [Heq|_].
  - exfalso. apply (Hc d); [now left|assumption].
  - apply IH. intros d' Hd'. apply Hc. now right.
Qed.

Lemma find_hasHash_app (hash : string) (c later : UrlEvent.Collection) :
  find (UrlEvent.hasHash hash) c = None ->
  find (UrlEvent.hasHash hash) (c ++ later) = find (UrlEvent.hasHash hash) later.
Proof.
  induction c as [|d c IH]; intros Hc; [reflexivity|].
  cbn [app find] in *. destruct (UrlEvent.hasHash hash d); [discriminate|auto].
Qed.

(** What [findOne] returns is in the collection and carries the hash asked for. *)
Lemma findOne_sound (hash : string) (c : UrlEvent.Collection) (d : UrlEvent.t) :
  UrlEvent.findOne ignoreUndefined (Some hash) c = Some d ->
  In d c /\ UrlEvent.transactionHash d = hash.
Proof.
  cbn [UrlEvent.findOne]. intros H. apply find_some in H as [Hin Hh].
  split; [assumption|]. now apply String.eqb_eq.
Qed.

(** C8 as worded fails when the collection already holds a record with the
    same transaction hash (the schema puts no unique index on it): the
    lookup returns the older record, whose [url] and dates differ. *)
Lemma C8_duplicate_hash_returns_older_record :
  let older := UrlEvent.new 100 "0xUser" "https://example.com/a" "0xABC" in
  let newer := UrlEvent.new 200 "0xUser" "https://example.com/b" "0xABC" in
  UrlEvent.findOne false (Some (UrlEvent.transactionHash newer))
                   (UrlEvent.save newer (UrlEvent.save older []))
  = Some older
  /\ UrlEvent.url older <> UrlEvent.url newer
  /\ UrlEvent.timestamp older <> UrlEvent.timestamp newer.
Proof. cbn. repeat split; discriminate. Qed.

(** C8.  A record saved into a collection that holds no record with its
    transaction hash is what [findOne] with that hash returns from then on,
    whatever is saved later: the very record, so all five fields agree. *)
Theorem C8_saved_record_is_found
  (c later : UrlEvent.Collection) (doc : UrlEvent.t) :
  (forall d, In d c -> UrlEvent.transactionHash d <> UrlEvent.transactionHash doc) ->
  UrlEvent.findOne ignoreUndefined (Some (UrlEvent.transactionHash doc))
                   (UrlEvent.save doc c ++ later)
  = Some doc.
Proof.
  intros Hc. cbn [UrlEvent.findOne]. unfold UrlEvent.save.
  rewrite <- app_assoc, find_hasHash_app by now apply find_hasHash_absent.
  cbn [app find]. unfold UrlEvent.hasHash at 1. now rewrite String.eqb_refl.
Qed.

End Collection.

Lemma C8_saved_record_witness :
  UrlEvent.findOne false (Some "0xABC")
    (UrlEvent.save exampleRecord
       [UrlEvent.new 100 "0xOther" "https://example.com/other" "0xDEF"]
     ++ [UrlEvent.new 4000 "0xUser" "https://example.com/late" "0xABC"])
  = Some exampleRecord.
Proof.
  apply (C8_saved_record_is_found false
           [UrlEvent.new 100 "0xOther" "https://example.com/other" "0xDEF"]
           [UrlEvent.new 4000 "0xUser" "https://example.com/late" "0xABC"]
           exampleRecord).
  intros d [<-|[]]. cbn. discriminate.
Defined.

(** ** Helpers of the server state *)

Lemma urlEvents_performAll (request : nat) (es : list Effect) : forall s,
  urlEvents (performAll request es s) = urlEvents s.
Proof.
  induction es as [|e es IH]; intros s; [reflexivity|].
  cbn [performAll fold_left]. fold (performAll request es (perform request s e)).
  rewrite IH. now destruct e.
Qed.

(** What a turn of the loop does to the collection: nothing, unless it is
    a notification whose save succeeds, which adds the new document at the
    end. *)
Lemma step_urlEvents (ignoreUndefined : bool) (s : Server) (turn : Z * Event) :
  urlEvents (step ignoreUndefined s turn) = urlEvents s
  \/ exists event,
       snd turn = ListenerData event Saved
       /\ urlEvents (step ignoreUndefined s turn)
          = urlEvents s ++ [UrlEvent.new (fst turn) (returnValues_user event)
                                         (returnValues_url event)
                                         (event_transactionHash event)].
Proof.
  destruct turn as [now e]. unfold step.
  destruct (exited s); [now left|].
  destruct e as [ | |error| |id|event saved|event|error|request hash
                |request failure|request readyState connected|i|error|closeError
                | |error| |failure];
    try (now left).
  - destruct saved; [right; eexists; split; reflexivity|now left].
  - left. unfold onQuerySettled.
    destruct (closureOf request s); [|reflexivity].
    destruct (existsb _ _); [|reflexivity].
    destruct (checkUrl _ now c) as [c' es].
    now rewrite urlEvents_performAll.
  - left. unfold onTimer.
    destruct (nth_error (timers s) i) as [timer|]; [|reflexivity].
    destruct (callback timer); [|reflexivity].
    now destruct (closureOf request (clearTimer i s)).
  - left. now destruct closeError.
  - left. now destruct failure.
Qed.

(** C9.  Over any sequence of turns of the event loop (notifications,
    requests, polls, timers, health checks, shutdown) the collection only
    grows at its end: the collection afterwards is the one before followed
    by more records, so a record at some position stays at that position,
    unchanged; and the only turn that adds a record is a notification whose
    save succeeds. *)
Theorem C9_collection_is_append_only
  (ignoreUndefined : bool) (turns : list (Z * Event)) (s : Server) :
  (exists more, urlEvents (run ignoreUndefined turns s) = urlEvents s ++ more)
  /\ (forall i doc,
        nth_error (urlEvents s) i = Some doc ->
        nth_error (urlEvents (run ignoreUndefined turns s)) i = Some doc)
  /\ (forall turn,
        urlEvents (step ignoreUndefined s turn) <> urlEvents s ->
        exists event, snd turn = ListenerData event Saved).
Proof.
  assert (Hgrow : forall turns s,
             exists more, urlEvents (run ignoreUndefined turns s) = urlEvents s ++ more).
  { clear. induction turns as [|turn turns IH]; intros s.
    - exists []. cbn. now rewrite app_nil_r.
    - cbn [run fold_left]. fold (run ignoreUndefined turns (step ignoreUndefined s turn)).
      destruct (IH (step ignoreUndefined s turn)) as [more ->].
      destruct (step_urlEvents ignoreUndefined s turn) as [->|(event & _ & ->)].
      + now exists more.
      + rewrite <- app_assoc. eexists. reflexivity. }
  split; [apply Hgrow|split].
  - intros i doc Hi. destruct (Hgrow turns s) as [more ->].
    rewrite nth_error_app1; [assumption|].
    apply nth_error_Some. congruence.
  - intros turn Hne.
    destruct (step_urlEvents ignoreUndefined s turn) as [Heq|(event & Hev & _)].
    + contradiction.
    + now exists event.
Qed.

(** ** The console does not steer the server *)

Lemma forgetConsole_perform (request : nat) (e : Effect) (s : Server) :
  forgetConsole (perform request s e)
  = forgetConsole (perform request (forgetConsole s) e).
Proof. now destruct e. Qed.

Lemma forgetConsole_performAll (request : nat) (es : list Effect) : forall s s',
  forgetConsole s = forgetConsole s' ->
  forgetConsole (performAll request es s) = forgetConsole (performAll request es s').
Proof.
  induction es as [|e es IH]; intros s s' H; [exact H|].
  cbn [performAll fold_left]. apply IH.
  rewrite forgetConsole_perform, (forgetConsole_perform request e s').
  now rewrite H.
Qed.

Lemma forgetConsole_step (ignoreUndefined : bool) (s : Server) (turn : Z * Event) :
  forgetConsole (step ignoreUndefined s turn)
  = forgetConsole (step ignoreUndefined (forgetConsole s) turn).
Proof.
  destruct turn as [now e]. unfold step. cbn [forgetConsole exited].
  destruct (exited s); [reflexivity|].
  destruct e as [ | |error| |id|event saved|event|error|request hash
                |request failure|request readyState connected|i|error|closeError
                | |error| |failure];
    try reflexivity.
  - now destruct saved.
  - unfold onQuerySettled, closureOf. cbn [forgetConsole closures querying urlEvents].
    destruct (option_map _ _) as [c|]; [|reflexivity].
    destruct (existsb _ _); [|reflexivity].
    destruct (checkUrl _ now c) as [c' es].
    now apply forgetConsole_performAll.
  - unfold onTimer. cbn [forgetConsole timers].
    destruct (nth_error (timers s) i) as [timer|]; [|reflexivity].
    destruct (callback timer); [|reflexivity].
    unfold closureOf. cbn [clearTimer forgetConsole closures].
    now destruct (option_map _ _).
  - now destruct closeError.
  - now destruct failure.
Qed.

Lemma forgetConsole_run (ignoreUndefined : bool) (turns : list (Z * Event)) :
  forall s s',
  forgetConsole s = forgetConsole s' ->
  forgetConsole (run ignoreUndefined turns s)
  = forgetConsole (run ignoreUndefined turns s').
Proof.
  induction turns as [|turn turns IH]; intros s s' H; [exact H|].
  cbn [run fold_left]. apply IH.
  rewrite forgetConsole_step, (forgetConsole_step ignoreUndefined s').
  now rewrite H.
Qed.

(** ** Notifications *)

(** C6.  When the save of a notification fails, the ['data'] callback
    catches the failure and logs it; collection, subscriptions, timers,
    pending requests and exit status are as before, so no retry is set up;
    the next notification is saved as usual; and from then on the server
    behaves, console apart, exactly as if the failed notification had never
    been delivered: its record is lost. *)
Theorem C6_failed_save_is_logged_and_dropped
  (ignoreUndefined : bool) (now : Z) (event : ContractEvent) (error : string)
  (s : Server) :
  let s' := onData now event (SaveFailed error) s in
  console s' = console s ++ [LogNewEvent (returnValues_url event); LogSaveError error]
  /\ forgetConsole s' = forgetConsole s
  /\ (forall now2 event2,
        urlEvents (onData now2 event2 Saved s')
        = urlEvents s ++ [UrlEvent.new now2 (returnValues_user event2)
                                       (returnValues_url event2)
                                       (event_transactionHash event2)])
  /\ (forall turns,
        forgetConsole (run ignoreUndefined turns s')
        = forgetConsole (run ignoreUndefined turns s)).
Proof.
  intros s'. split; [|split; [|split]].
  - cbn. now rewrite <- app_assoc.
  - reflexivity.
  - reflexivity.
  - intros turns. now apply forgetConsole_run.
Qed.

(** C7.  A notification handled while the process runs and whose save
    succeeds adds exactly one record, at the end of the collection, with
    [userAddress] the event's [returnValues.user], [url] its
    [returnValues.url], [transactionHash] the event's transaction hash and
    [timestamp] the clock at that moment. *)
Theorem C7_persisted_record_fields
  (ignoreUndefined : bool) (now : Z) (event : ContractEvent) (s : Server) :
  exited s = None ->
  exists doc,
    urlEvents (step ignoreUndefined s (now, ListenerData event Saved))
    = urlEvents s ++ [doc]
    /\ UrlEvent.userAddress doc = returnValues_user event
    /\ UrlEvent.url doc = returnValues_url event
    /\ UrlEvent.transactionHash doc = event_transactionHash event
    /\ UrlEvent.timestamp doc = now.
Proof.
  intros Hrun. unfold step. rewrite Hrun.
  eexists. split; [reflexivity|]. repeat split.
Qed.

Lemma C7_persisted_record_witness :
  exists doc,
    urlEvents (step false (step false boot (0, Listening))
                    (3200, ListenerData exampleEvent Saved))
    = [doc]
    /\ doc = exampleRecord.
Proof.
  destruct (C7_persisted_record_fields false 3200 exampleEvent
              (step false boot (0, Listening)) eq_refl)
    as (doc & Hdoc & _).
  exists doc. split; [exact Hdoc|].
  cbn in Hdoc. now injection Hdoc as <-.
Defined.

(** ** Restarting the listener *)

Lemma dropNth_last {A : Type} (l : list A) (x : A) :
  dropNth (List.length l) (l ++ [x]) = l.
Proof.
  unfold dropNth. induction l as [|a l IH]; [reflexivity|].
  cbn [List.length app firstn skipn] in *. now rewrite IH.
Qed.

(** ** Scenarios on the whole server *)

(** The record saved between the third and the fourth poll is found by the
    fourth, which answers with the time elapsed until then. *)
Example savedMidPoll_answer :
  answersTo 1 (run false savedMidPoll boot)
  = [{| status := 200; body := UrlBody "https://example.com/page" 3008 2500 |}]
  /\ timers (run false savedMidPoll boot) = []
  /\ querying (run false savedMidPoll boot) = [].
Proof. repeat split. Qed.

(** A failing query leaves the request unanswered, with nothing pending. *)
Example failedQuery_no_answer :
  let s := run false [(0, PostGetWebsite 1 (Some "0xABC"));
                      (10, QuerySettled 1 (Some "connection lost"))] boot in
  answersTo 1 s = [] /\ timers s = [] /\ querying s = []
  /\ console s = [LogRequest (Some "0xABC"); LogUnhandled "connection lost"].
Proof. repeat split. Qed.

(** *** A request without [transactionHash]

    What such a request finds is decided by how the driver sends an
    [undefined] filter value, which server.js does not set. *)

Lemma findOne_undefined_as_null (c : UrlEvent.Collection) :
  UrlEvent.findOne false None c = None.
Proof. reflexivity. Qed.

Lemma findOne_undefined_ignored (d : UrlEvent.t) (c : UrlEvent.Collection) :
  UrlEvent.findOne true None (d :: c) = Some d.
Proof. reflexivity. Qed.

(** Sent as [null], the filter matches nothing and the request keeps polling. *)
Example omittedHash_as_null :
  answersTo 1 (run false omittedHash boot) = []
  /\ timers (run false omittedHash boot)
     = [{| delay := 1000; callback := CheckUrlOf 1 |}].
Proof. split; reflexivity. Qed.

(** Ignored, the filter is empty and the first poll answers with the record
    of another transaction. *)
Example omittedHash_ignored :
  answersTo 1 (run true omittedHash boot)
  = [{| status := 200; body := UrlBody "https://example.com/page" 2 10 |}].
Proof. reflexivity. Qed.

(** ** What a request is answered, for every behaviour of the store *)

Section Outcome.

Variable env : nat -> PollEnv.
Variables (t0 : Z) (hash : option string).

Lemma firstDecisiveFrom_None (n : nat) : forall i,
  firstDecisiveFrom env i n = None ->
  forall j, (i <= j < i + n)%nat -> result (env j) = Resolved None.
Proof.
  induction n as [|n IH]; intros i H j Hj; [lia|].
  cbn [firstDecisiveFrom] in H.
  destruct (decisive (result (env i))) eqn:Hd; [discriminate|].
  destruct (Nat.eq_dec j i) as [->|Hne].
  - destruct (result (env i)) as [[ev|]|err]; try discriminate Hd. reflexivity.
  - apply (IH (S i)); [assumption|lia].
Qed.

Lemma firstDecisiveFrom_Some (n : nat) : forall i k,
  firstDecisiveFrom env i n = Some k ->
  (i <= k < i + n)%nat
  /\ decisive (result (env k)) = true
  /\ forall j, (i <= j < k)%nat -> result (env j) = Resolved None.
Proof.
  induction n as [|n IH]; intros i k H; [discriminate|].
  cbn [firstDecisiveFrom] in H.
  destruct (decisive (result (env i))) eqn:Hd.
  - injection H as <-. repeat split; [lia|lia|assumption|intros j Hj; lia].
  - destruct (IH (S i) k H) as (Hk & Hdk & Hbefore).
    repeat split; [lia|lia|assumption|].
    intros j Hj. destruct (Nat.eq_dec j i) as [->|Hne].
    + destruct (result (env i)) as [[ev|]|err]; try discriminate Hd. reflexivity.
    + apply Hbefore. lia.
Qed.

Lemma responses_of_run (final : Invocation) (k : nat) :
  snd (lookup env t0 hash) = map (emptyPoll env t0 hash) (seq 0 k) ++ [final] ->
  responses (lookup env t0 hash) = sent (inv_effects final).
Proof.
  intros Hrun. rewrite responses_lookup, Hrun, flat_map_app.
  unfold sent at 1. rewrite flat_map_app.
  fold (sent (flat_map inv_effects (map (emptyPoll env t0 hash) (seq 0 k)))).
  rewrite sent_empty_polls. cbn [flat_map app]. now rewrite app_nil_r.
Qed.

Lemma run_all_empty :
  (forall i, (i < Z.to_nat maxAttempts)%nat -> result (env i) = Resolved None) ->
  snd (lookup env t0 hash)
  = map (emptyPoll env t0 hash) (seq 0 29) ++ [lastPoll env t0 hash 29].
Proof.
  intros Hq. rewrite (lookup_empty_prefix env t0 hash 29 0).
  - f_equal. apply pollLoop_last_step; [apply Hq|]; cbn; lia.
  - intros i Hi. apply Hq. cbn. lia.
  - reflexivity.
Qed.

Lemma run_decided (k : nat) (final : Invocation) :
  (k < Z.to_nat maxAttempts)%nat ->
  (forall i, (i < k)%nat -> result (env i) = Resolved None) ->
  (forall fuel, pollLoop (S fuel) env k (startAt env t0 k) (closureAt hash t0 k)
                = [final]) ->
  snd (lookup env t0 hash) = map (emptyPoll env t0 hash) (seq 0 k) ++ [final].
Proof.
  intros Hk Hq Hfinal.
  rewrite (lookup_empty_prefix env t0 hash k (Z.to_nat maxAttempts - S k));
    [|assumption|lia].
  now rewrite Hfinal.
Qed.

(** The shape of every run: some empty polls, then one closing invocation,
    which is the 30th poll giving up, a poll that found a record, or a poll
    whose query failed. *)
Lemma run_shape :
  exists k final,
    (k < Z.to_nat maxAttempts)%nat
    /\ snd (lookup env t0 hash) = map (emptyPoll env t0 hash) (seq 0 k) ++ [final]
    /\ (forall i, (i < k)%nat -> result (env i) = Resolved None)
    /\ ((k = 29%nat /\ result (env k) = Resolved None
         /\ final = lastPoll env t0 hash k)
        \/ (exists event, result (env k) = Resolved (Some event)
                          /\ final = foundPoll env t0 hash k event)
        \/ (exists error, result (env k) = Rejected error
                          /\ final = failedPoll env t0 hash k error)).
Proof.
  destruct (firstDecisiveFrom env 0 (Z.to_nat maxAttempts)) as [k|] eqn:Hfirst.
  - apply firstDecisiveFrom_Some in Hfirst as (Hk & Hd & Hbefore).
    assert (Hq : forall i, (i < k)%nat -> result (env i) = Resolved None)
      by (intros i Hi; apply Hbefore; lia).
    destruct (result (env k)) as [[event|]|error] eqn:Hres; [|discriminate Hd|].
    + exists k, (foundPoll env t0 hash k event). repeat split; [lia| |assumption|].
      * apply run_decided; [lia|assumption|].
        intros fuel. now apply pollLoop_found_step.
      * right. left. now exists event.
    + exists k, (failedPoll env t0 hash k error). repeat split; [lia| |assumption|].
      * apply run_decided; [lia|assumption|].
        intros fuel. now apply pollLoop_failed_step.
      * right. right. now exists error.
  - pose proof (firstDecisiveFrom_None _ _ Hfirst) as Hnone.
    assert (Hq : forall i, (i < Z.to_nat maxAttempts)%nat -> result (env i) = Resolved None)
      by (intros i Hi; apply Hnone; lia).
    exists 29%nat, (lastPoll env t0 hash 29). repeat split.
    + cbn. lia.
    + now apply run_all_empty.
    + intros i Hi. apply Hq. cbn. lia.
    + left. repeat split. apply Hq. cbn. lia.
Qed.

(** X1.  Whatever the store does, the responses a request gets are the ones
    read off the first poll that does not come back empty: the 200 of the
    record found there, nothing when that query failed, and the 404 of the
    30th poll when all thirty came back empty. *)
Theorem lookup_responses_expected :
  responses (lookup env t0 hash) = expectedResponses env t0.
Proof.
  unfold expectedResponses.
  destruct (firstDecisiveFrom env 0 (Z.to_nat maxAttempts)) as [k|] eqn:Hfirst.
  - apply firstDecisiveFrom_Some in Hfirst as (Hk & Hd & Hbefore).
    assert (Hq : forall i, (i < k)%nat -> result (env i) = Resolved None)
      by (intros i Hi; apply Hbefore; lia).
    destruct (result (env k)) as [[event|]|error] eqn:Hres; [|discriminate Hd|].
    + rewrite (responses_of_run (foundPoll env t0 hash k event) k); [reflexivity|].
      apply run_decided; [lia|assumption|].
      intros fuel. now apply pollLoop_found_step.
    + rewrite (responses_of_run (failedPoll env t0 hash k error) k); [reflexivity|].
      apply run_decided; [lia|assumption|].
      intros fuel. now apply pollLoop_failed_step.
  - pose proof (firstDecisiveFrom_None _ _ Hfirst) as Hnone.
    rewrite (responses_of_run (lastPoll env t0 hash 29) 29); [reflexivity|].
    apply run_all_empty. intros i Hi. apply Hnone. lia.
Qed.

(** X2.  A 404 is written only by the 30th poll: if a request is answered
    404 then all thirty queries came back empty, and the body carries
    [attempts] = 30 and the time of the 30th poll. *)
Theorem not_found_only_after_thirty_empty_polls (r : Response) :
  In r (responses (lookup env t0 hash)) ->
  status r = 404 ->
  (forall i, (i < Z.to_nat maxAttempts)%nat -> result (env i) = Resolved None)
  /\ body r = NotFoundBody notFoundMessage 30 (settledAt env t0 29 - t0).
Proof.
  destruct run_shape as (k & final & Hk & Hrun & Hq & Hcase).
  rewrite (responses_of_run final k Hrun).
  destruct Hcase as [(-> & Hlast & ->)|[(event & _ & ->)|(error & _ & ->)]];
    cbn [lastPoll foundPoll failedPoll inv_effects sent flat_map sentOf app In].
  - intros [<-|[]] _. split; [|reflexivity].
    intros i Hi. destruct (Nat.eq_dec i 29) as [->|Hne]; [assumption|].
    apply Hq. change (Z.to_nat maxAttempts) with 30%nat in Hi. lia.
  - intros [<-|[]]. discriminate.
  - intros [].
Qed.

(** X3.  A 200 is written only for a record the store returned: if a
    request is answered 200 then some poll [k] among the thirty returned a
    record after [k] empty polls, and the body carries that record's [url]
    and [timestamp] and the time of that poll. *)
Theorem found_only_from_returned_record (r : Response) :
  In r (responses (lookup env t0 hash)) ->
  status r = 200 ->
  exists k event,
    (k < Z.to_nat maxAttempts)%nat
    /\ (forall i, (i < k)%nat -> result (env i) = Resolved None)
    /\ result (env k) = Resolved (Some event)
    /\ body r = UrlBody (UrlEvent.url event) (settledAt env t0 k - t0)
                        (UrlEvent.timestamp event).
Proof.
  destruct run_shape as (k & final & Hk & Hrun & Hq & Hcase).
  rewrite (responses_of_run final k Hrun).
  destruct Hcase as [(-> & Hlast & ->)|[(event & Hev & ->)|(error & _ & ->)]];
    cbn [lastPoll foundPoll failedPoll inv_effects sent flat_map sentOf app In].
  - intros [<-|[]]. discriminate.
  - intros [<-|[]] _. exists k, event. now repeat split.
  - intros [].
Qed.

(** X4.  Whatever the store does, a request issues at least one and at most
    thirty queries; every invocation of [checkUrl] before the last sets
    exactly one timer, of 1000 ms, and writes nothing; the last sets none. *)
Theorem polls_between_one_and_thirty :
  let run := snd (lookup env t0 hash) in
  (1 <= List.length run <= 30)%nat
  /\ (forall j inv,
        nth_error run j = Some inv ->
        (S j < List.length run)%nat ->
        scheduled (inv_effects inv) = [1000] /\ sent (inv_effects inv) = [])
  /\ (forall inv,
        nth_error run (List.length run - 1) = Some inv ->
        scheduled (inv_effects inv) = []).
Proof.
  destruct run_shape as (k & final & Hk & Hrun & Hq & Hcase).
  cbv zeta. rewrite Hrun, length_app, length_map, length_seq.
  cbn [List.length]. change (Z.to_nat maxAttempts) with 30%nat in Hk.
  split; [lia|split].
  - intros j inv Hj Hlt. apply nth_error_empty_polls in Hj.
    destruct Hj as [[_ ->]|[Hge _]]; [now split|lia].
  - intros inv Hj. apply nth_error_empty_polls in Hj.
    destruct Hj as [[Hlt _]|[_ Hj]]; [lia|].
    replace (k + 1 - 1 - k)%nat with 0%nat in Hj by lia.
    injection Hj as <-.
    destruct Hcase as [(_ & _ & ->)|[(event & _ & ->)|(error & _ & ->)]];
      reflexivity.
Qed.

Lemma startAt_upper_bound (L D : Z) (k : nat) :
  (forall i, Z.of_N (latency (env i)) <= L /\ Z.of_N (lateness (env i)) <= D) ->
  startAt env t0 k <= t0 + Z.of_nat k * (1000 + L + D).
Proof.
  intros Hb. induction k as [|k IH]; [cbn; lia|].
  cbn [startAt]. destruct (Hb k). nia.
Qed.

(** X5.  If between issuing a query and its settling the clock advances
    by at most [L] ms, and between setting a timer and its firing by at most
    1000 + [D] ms, the [processTime] a request reports is at most 29 rounds
    of (1000 + L + D) ms plus one query. *)
Theorem processTime_within_deadline (L D : Z) (r : Response) (p : Z) :
  (forall i, Z.of_N (latency (env i)) <= L /\ Z.of_N (lateness (env i)) <= D) ->
  In r (responses (lookup env t0 hash)) ->
  processTimeOf (body r) = Some p ->
  p <= 29 * (1000 + L + D) + L.
Proof.
  intros Hb.
  assert (Hbound : forall k, (k < 30)%nat ->
            settledAt env t0 k - t0 <= 29 * (1000 + L + D) + L).
  { intros k Hk.
    pose proof (startAt_upper_bound L D k Hb). unfold settledAt in *.
    destruct (Hb k). destruct (Hb 0%nat).
    assert (0 <= L) by lia. assert (0 <= D) by lia. nia. }
  destruct run_shape as (k & final & Hk & Hrun & Hq & Hcase).
  rewrite (responses_of_run final k Hrun).
  change (Z.to_nat maxAttempts) with 30%nat in Hk.
  destruct Hcase as [(_ & _ & ->)|[(event & _ & ->)|(error & _ & ->)]];
    cbn [lastPoll foundPoll failedPoll inv_effects sent flat_map sentOf app In].
  - intros [<-|[]]. cbn. intros [= <-]. now apply Hbound.
  - intros [<-|[]]. cbn. intros [= <-]. now apply Hbound.
  - intros [].
Qed.

End Outcome.

Lemma not_found_only_after_thirty_witness :
  result (neverFound 17) = Resolved None.
Proof.
  refine (proj1 (not_found_only_after_thirty_empty_polls neverFound 0 (Some "0xDEF")
                   {| status := 404;
                      body := NotFoundBody notFoundMessage 30 (29 * 1005 + 4) |}
                   _ eq_refl) 17%nat _).
  - vm_compute. now left.
  - vm_compute. lia.
Defined.

Lemma found_only_from_returned_record_witness :
  exists k event,
    result (foundAtFourth k) = Resolved (Some event)
    /\ UrlEvent.url event = "https://example.com/page".
Proof.
  destruct (found_only_from_returned_record foundAtFourth 0 (Some "0xABC")
              {| status := 200;
                 body := UrlBody "https://example.com/page" 3000 3200 |})
    as (k & event & _ & _ & Hres & Hbody).
  - vm_compute. now left.
  - reflexivity.
  - exists k, event. split; [exact Hres|]. now injection Hbody as <- _ _.
Defined.

Lemma processTime_within_deadline_witness :
  29 * 1005 + 4 <= 29 * (1000 + 4 + 1) + 4.
Proof.
  apply (processTime_within_deadline neverFound 0 (Some "0xDEF") 4 1
           {| status := 404;
              body := NotFoundBody notFoundMessage 30 (29 * 1005 + 4) |}).
  - intros i. cbn. lia.
  - vm_compute. now left.
  - reflexivity.
Defined.

(** ** Effects of a request on the server *)

Lemma performAll_spec (request : nat) (es : list Effect) : forall s,
  performAll request es s =
  {| urlEvents := urlEvents s;
     subscriptions := subscriptions s;
     timers := timers s ++ map (pollTimer request) (scheduled es);
     console := console s ++ flat_map linesOf es;
     closures := closures s;
     querying := querying s;
     answered := answered s ++ map (pair request) (sent es);
     exited := exited s |}.
Proof.
  induction es as [|e es IH]; intros s.
  - cbn. rewrite !app_nil_r. now destruct s.
  - cbn [performAll fold_left]. fold (performAll request es (perform request s e)).
    rewrite IH. destruct e; cbn; rewrite <- ?app_assoc; reflexivity.
Qed.

Lemma checkUrl_keeps_request (q : QueryResult) (now : Z) (c : Closure) :
  transactionHash (fst (checkUrl q now c)) = transactionHash c
  /\ startTime (fst (checkUrl q now c)) = startTime c.
Proof.
  destruct q as [[event|]|error]; cbn; try (now split).
  now destruct (attempts c + 1 >=? maxAttempts).
Qed.

(** Once the process has exited no turn changes anything. *)
Lemma run_exited (ignoreUndefined : bool) (turns : list (Z * Event)) : forall s code,
  exited s = Some code -> run ignoreUndefined turns s = s.
Proof.
  induction turns as [|[now e] turns IH]; intros s code H; [reflexivity|].
  cbn [run fold_left]. fold (run ignoreUndefined turns (step ignoreUndefined s (now, e))).
  unfold step at 1. rewrite H. now apply (IH s code).
Qed.

Lemma run_alive (ignoreUndefined : bool) (turns : list (Z * Event)) (s : Server) :
  exited (run ignoreUndefined turns s) = None -> exited s = None.
Proof.
  destruct (exited s) as [code|] eqn:H; [|reflexivity].
  now rewrite (run_exited ignoreUndefined turns s code H), H.
Qed.

Lemma run_cons (ignoreUndefined : bool) (turn : Z * Event) (turns : list (Z * Event))
      (s : Server) :
  run ignoreUndefined (turn :: turns) s
  = run ignoreUndefined turns (step ignoreUndefined s turn).
Proof. reflexivity. Qed.

(** ** Shutdown *)

(** X6.  On SIGTERM, while the process runs, the handler exits with code 0
    when the connection closed and 1 when closing failed; it writes no
    response, saves nothing and clears no timer; and after it no turn of the
    event loop changes the server any more. *)
Theorem sigterm_stops_the_server
  (ignoreUndefined : bool) (now : Z) (closeError : option string) (s : Server) :
  exited s = None ->
  let s' := step ignoreUndefined s (now, Sigterm closeError) in
  exited s' = Some (match closeError with None => 0 | Some _ => 1 end)
  /\ answered s' = answered s
  /\ urlEvents s' = urlEvents s
  /\ timers s' = timers s
  /\ forall turns, run ignoreUndefined turns s' = s'.
Proof.
  intros Hrun s'.
  assert (Hs' : s' = onSigterm closeError s) by (unfold s', step; now rewrite Hrun).
  assert (Hexit : exited s' = Some (match closeError with None => 0 | Some _ => 1 end)).
  { rewrite Hs'. now destruct closeError. }
  split; [exact Hexit|].
  split; [rewrite Hs'; now destruct closeError|].
  split; [rewrite Hs'; now destruct closeError|].
  split; [rewrite Hs'; now destruct closeError|].
  intros turns. now apply (run_exited ignoreUndefined turns s' _ Hexit).
Qed.

Lemma sigterm_stops_the_server_witness :
  answersTo 1 (run false [(0, PostGetWebsite 1 (Some "0xABC"));
                          (5, Sigterm None);
                          (6, QuerySettled 1 None);
                          (7, ListenerData exampleEvent Saved)] boot) = []
  /\ exited (step false (step false boot (0, PostGetWebsite 1 (Some "0xABC")))
                  (5, Sigterm None)) = Some 0.
Proof.
  destruct (sigterm_stops_the_server false 5 None
              (step false boot (0, PostGetWebsite 1 (Some "0xABC"))) eq_refl)
    as (Hexit & _ & _ & _ & Hfrozen).
  split; [|exact Hexit].
  rewrite !run_cons, Hfrozen. reflexivity.
Defined.

(** ** Records and notifications *)




(** ** Timers and listeners *)

Lemma dropNth_split {A : Type} (l1 l2 : list A) (x : A) :
  dropNth (List.length l1) (l1 ++ x :: l2) = l1 ++ l2.
Proof.
  unfold dropNth. induction l1 as [|a l1 IH]; [reflexivity|].
  cbn [List.length app firstn skipn] in *. now rewrite IH.
Qed.

Lemma filter_dropNth {A : Type} (f : A -> bool) (l : list A) (i : nat) (x : A) :
  nth_error l i = Some x ->
  (List.length (filter f (dropNth i l)) + (if f x then 1 else 0)
   = List.length (filter f l))%nat.
Proof.
  intros H. apply nth_error_split in H as (l1 & l2 & -> & <-).
  rewrite dropNth_split, !filter_app, !length_app. cbn [filter].
  destruct (f x); cbn [List.length]; lia.
Qed.

Lemma In_dropNth {A : Type} (l : list A) (i : nat) (x : A) :
  In x (dropNth i l) -> In x l.
Proof.
  unfold dropNth. intros H. apply in_app_or in H as [H|H].
  - rewrite <- (firstn_skipn i l). apply in_or_app. now left.
  - rewrite <- (firstn_skipn (S i) l). apply in_or_app. now right.
Qed.

Lemma filter_isRestart_pollTimers (request : nat) (ds : list Z) :
  filter isRestart (map (pollTimer request) ds) = [].
Proof. induction ds as [|d ds IH]; [reflexivity|exact IH]. Qed.

Lemma step_alive (ignoreUndefined : bool) (s : Server) (turn : Z * Event) :
  exited (step ignoreUndefined s turn) = None -> exited s = None.
Proof.
  destruct (exited s) as [code|] eqn:H; [|reflexivity].
  destruct turn as [now e]. unfold step. rewrite H. congruence.
Qed.

Lemma step_listeners (ignoreUndefined : bool) (s : Server) (turn : Z * Event) :
  exited s = None ->
  (subscriptions (step ignoreUndefined s turn)
   + List.length (pendingRestarts (step ignoreUndefined s turn))
   = subscriptions s + List.length (pendingRestarts s)
     + (if startsListener turn then 1 else 0))%nat
  /\ (subscriptions s <= subscriptions (step ignoreUndefined s turn))%nat.
Proof.
  intros Hrun. destruct turn as [now e]. unfold step, startsListener, pendingRestarts.
  rewrite Hrun. cbn [snd].
  destruct e as [ | |error| |id|event saved|event|error|request hash
                |request failure|request readyState connected|i|error|closeError
                | |error| |failure];
    try (cbn; split; lia).
  - destruct saved; cbn; split; lia.
  - cbn. rewrite filter_app, length_app. cbn. split; lia.
  - unfold onQuerySettled.
    destruct (closureOf request s); [|split; lia].
    destruct (existsb _ _); [|split; lia].
    destruct (checkUrl _ now c) as [c' es].
    rewrite performAll_spec. cbn [subscriptions timers resume].
    rewrite filter_app, filter_isRestart_pollTimers, app_nil_r. split; lia.
  - unfold onTimer.
    destruct (nth_error (timers s) i) as [timer|] eqn:Hi; [|split; lia].
    pose proof (filter_dropNth isRestart _ _ _ Hi) as Hcount.
    unfold isRestart at 2 in Hcount.
    destruct (callback timer).
    + destruct (closureOf request (clearTimer i s)); cbn in *; split; lia.
    + cbn in *. split; lia.
  - destruct closeError; cbn; split; lia.
  - destruct failure; cbn; split; lia.
Qed.

(** X8.  As long as the process has not exited, the listeners opened plus
    the restarts still scheduled are those there were plus one for every
    [app.listen] callback and every ['error'] of a listener: each error ends
    up as one more subscription once its timer fires, and no turn ever
    closes a subscription. *)
Theorem listeners_only_accumulate
  (ignoreUndefined : bool) (turns : list (Z * Event)) : forall s,
  exited (run ignoreUndefined turns s) = None ->
  (subscriptions (run ignoreUndefined turns s)
   + List.length (pendingRestarts (run ignoreUndefined turns s))
   = subscriptions s + List.length (pendingRestarts s)
     + List.length (filter startsListener turns))%nat
  /\ (subscriptions s <= subscriptions (run ignoreUndefined turns s))%nat.
Proof.
  induction turns as [|turn turns IH]; intros s Hend.
  - cbn. split; lia.
  - rewrite run_cons in *. destruct (IH _ Hend) as [Hsum Hmono].
    apply run_alive, step_alive in Hend.
    destruct (step_listeners ignoreUndefined s turn Hend) as [Hstep Hle].
    cbn [filter]. destruct (startsListener turn); cbn [List.length]; split; lia.
Qed.

Lemma listeners_only_accumulate_witness :
  subscriptions
    (run false [(0, Listening); (7, ListenerError "closed");
                (9, ListenerError "closed again");
                (5007, TimerFires 0); (5009, TimerFires 0)] boot) = 3%nat.
Proof.
  destruct (listeners_only_accumulate false
              [(0, Listening); (7, ListenerError "closed");
               (9, ListenerError "closed again");
               (5007, TimerFires 0%nat); (5009, TimerFires 0%nat)] boot eq_refl)
    as [Hsum _].
  cbn in Hsum. cbn. lia.
Defined.

Lemma step_knownTimers (ignoreUndefined : bool) (s : Server) (turn : Z * Event) :
  Forall knownTimer (timers s) ->
  Forall knownTimer (timers (step ignoreUndefined s turn)).
Proof.
  intros Hs. destruct turn as [now e]. unfold step.
  destruct (exited s); [assumption|].
  destruct e as [ | |error| |id|event saved|event|error|request hash
                |request failure|request readyState connected|i|error|closeError
                | |error| |failure];
    try assumption.
  - now destruct saved.
  - cbn. apply Forall_app. split; [assumption|].
    constructor; [|constructor]. right. now split.
  - unfold onQuerySettled.
    destruct (closureOf request s); [|assumption].
    destruct (existsb _ _); [|assumption].
    pose proof (checkUrl_shape now c
                  match failure with
                  | Some error => Rejected error
                  | None => Resolved (UrlEvent.findOne ignoreUndefined
                                        (transactionHash c) (urlEvents s))
                  end) as Hshape.
    destruct (checkUrl _ now c) as [c' es]. cbn [fst snd] in Hshape.
    rewrite performAll_spec. cbn [timers resume].
    apply Forall_app. split; [assumption|].
    destruct Hshape as [(-> & _)|(-> & _)]; [|constructor].
    constructor; [|constructor]. left. split; [reflexivity|now exists request].
  - unfold onTimer.
    destruct (nth_error (timers s) i) as [timer|]; [|assumption].
    assert (Hdrop : Forall knownTimer (dropNth i (timers s))).
    { rewrite Forall_forall in *. intros x Hx. apply Hs.
      now apply In_dropNth in Hx. }
    destruct (callback timer); [|assumption].
    now destruct (closureOf request (clearTimer i s)).
  - now destruct closeError.
  - now destruct failure.
Qed.

(** X9.  The server only ever waits on two kinds of timer: starting with
    none but those, after any sequence of turns every pending timer is
    either a 1000 ms timer of some request's [checkUrl] or a 5000 ms restart
    of the listener. *)
Theorem timers_are_polls_or_restarts
  (ignoreUndefined : bool) (turns : list (Z * Event)) : forall s,
  Forall knownTimer (timers s) ->
  Forall knownTimer (timers (run ignoreUndefined turns s)).
Proof.
  induction turns as [|turn turns IH]; intros s Hs; [assumption|].
  rewrite run_cons. apply IH. now apply step_knownTimers.
Qed.

Lemma timers_are_polls_or_restarts_witness :
  Forall knownTimer (timers (run false omittedHash boot)).
Proof.
  apply (timers_are_polls_or_restarts false omittedHash boot). constructor.
Defined.

(** ** Requests do not get in each other's way *)

Lemma answers_app (r r' : nat) (l : list (nat * Response)) (rs : list Response) :
  map snd (filter (fun a => Nat.eqb (fst a) r) (l ++ map (pair r') rs))
  = map snd (filter (fun a => Nat.eqb (fst a) r) l)
    ++ (if Nat.eqb r' r then rs else []).
Proof.
  rewrite filter_app, map_app. f_equal.
  induction rs as [|x rs IH]; [now destruct (Nat.eqb r' r)|].
  cbn [map filter fst]. destruct (Nat.eqb r' r); cbn [map snd]; [now f_equal|assumption].
Qed.

Lemma polls_app (r r' : nat) (l : list Timer) (ds : list Z) :
  filter (isPollOf r) (l ++ map (pollTimer r') ds)
  = filter (isPollOf r) l ++ (if Nat.eqb r' r then map (pollTimer r') ds else []).
Proof.
  rewrite filter_app. f_equal.
  induction ds as [|d ds IH]; [now destruct (Nat.eqb r' r)|].
  cbn [map filter]. unfold isPollOf at 1. cbn [pollTimer callback].
  destruct (Nat.eqb r' r); [now f_equal|assumption].
Qed.

Lemma inFlight_resume (r r' : nat) (l : list nat) :
  filter (Nat.eqb r) (filter (fun x => negb (Nat.eqb x r')) l)
  = if Nat.eqb r' r then [] else filter (Nat.eqb r) l.
Proof.
  induction l as [|x l IH]; [now destruct (Nat.eqb r' r)|].
  cbn [filter].
  destruct (Nat.eqb_spec x r') as [->|Hx]; cbn [negb filter].
  - rewrite IH. destruct (Nat.eqb_spec r' r) as [->|Hr]; [reflexivity|].
    destruct (Nat.eqb_spec r r'); [congruence|reflexivity].
  - destruct (Nat.eqb_spec r x) as [->|Hrx]; rewrite IH.
    + now destruct (Nat.eqb_spec r' x); [congruence|].
    + reflexivity.
Qed.

Lemma existsb_filter (f : nat -> bool) (l : list nat) :
  existsb f l = true -> (1 <= List.length (filter f l))%nat.
Proof.
  induction l as [|x l IH]; [discriminate|].
  cbn [existsb filter]. destruct (f x); cbn [orb List.length]; [lia|assumption].
Qed.

Lemma filter_dropNth_other {A : Type} (f : A -> bool) (l : list A) (i : nat) (x : A) :
  nth_error l i = Some x -> f x = false ->
  filter f (dropNth i l) = filter f l.
Proof.
  intros H Hx. apply nth_error_split in H as (l1 & l2 & -> & <-).
  rewrite dropNth_split, !filter_app. cbn [filter]. now rewrite Hx.
Qed.

(** What a settled query of [r'] does to the view of [r]. *)
Lemma onQuerySettled_view (ignoreUndefined : bool) (now : Z) (r r' : nat)
      (failure : option string) (s : Server) :
  r' <> r ->
  answersTo r (onQuerySettled ignoreUndefined now r' failure s) = answersTo r s
  /\ pendingPolls r (onQuerySettled ignoreUndefined now r' failure s) = pendingPolls r s
  /\ inFlight r (onQuerySettled ignoreUndefined now r' failure s) = inFlight r s
  /\ closureOf r (onQuerySettled ignoreUndefined now r' failure s) = closureOf r s.
Proof.
  intros Hne. unfold onQuerySettled.
  destruct (closureOf r' s); [|now repeat split].
  destruct (existsb _ _); [|now repeat split].
  destruct (checkUrl _ now c) as [c' es].
  rewrite performAll_spec.
  unfold answersTo, pendingPolls, inFlight, closureOf.
  cbn [answered timers querying closures resume find fst].
  rewrite answers_app, polls_app, inFlight_resume.
  destruct (Nat.eqb_spec r' r) as [|_]; [contradiction|].
  now rewrite !app_nil_r.
Qed.

(** X10.  The turns of one HTTP exchange leave every other request as it
    was: posting, settling a query, answering a health check or firing a
    poll timer of request [r'] changes neither the responses written to
    another request [r], nor its closure (so not its attempt count), nor its
    pending timers, nor its queries in flight. *)
Theorem requests_do_not_interfere
  (ignoreUndefined : bool) (now : Z) (r r' : nat) (s : Server) :
  r' <> r ->
  (forall e, turnOf r' e = true ->
     viewOf r (step ignoreUndefined s (now, e)) = viewOf r s)
  /\ (forall i timer,
        nth_error (timers s) i = Some timer ->
        callback timer = CheckUrlOf r' ->
        viewOf r (step ignoreUndefined s (now, TimerFires i)) = viewOf r s).
Proof.
  intros Hne. split.
  - intros e He. unfold step. destruct (exited s); [reflexivity|].
    destruct e as [ | |error| |id|event saved|event|error|request hash
                  |request failure|request readyState connected|i|error|closeError
                  | |error| |failure];
      try discriminate He; cbn [turnOf] in He; apply Nat.eqb_eq in He; subst request.
    + unfold viewOf, answersTo, pendingPolls, inFlight, closureOf. cbn.
      destruct (Nat.eqb_spec r r') as [|_]; [congruence|].
      destruct (Nat.eqb_spec r' r) as [|_]; [congruence|]. reflexivity.
    + destruct (onQuerySettled_view ignoreUndefined now r r' failure s Hne)
        as (Ha & Hp & Hf & Hc).
      unfold viewOf. now rewrite Ha, Hp, Hf, Hc.
    + unfold viewOf, answersTo, pendingPolls, inFlight, closureOf. cbn.
      rewrite filter_app, map_app. cbn.
      destruct (Nat.eqb_spec r' r) as [|_]; [congruence|]. cbn.
      now rewrite app_nil_r.
  - intros i timer Hi Hcb. unfold step. destruct (exited s); [reflexivity|].
    unfold onTimer. rewrite Hi, Hcb.
    assert (Hpolls : pendingPolls r (clearTimer i s) = pendingPolls r s).
    { unfold pendingPolls. cbn [clearTimer timers].
      apply (filter_dropNth_other _ _ _ _ Hi). unfold isPollOf. rewrite Hcb.
      now apply Nat.eqb_neq. }
    destruct (closureOf r' (clearTimer i s)) as [c|].
    + unfold viewOf. unfold pendingPolls in *.
      unfold answersTo, inFlight, closureOf. cbn in *. rewrite Hpolls.
      destruct (Nat.eqb_spec r r') as [|_]; [congruence|].
      destruct (Nat.eqb_spec r' r) as [|_]; [congruence|]. reflexivity.
    + unfold viewOf. now rewrite Hpolls.
Qed.

Lemma requests_do_not_interfere_witness :
  viewOf 1 (step false (run false savedMidPoll boot)
                 (3010, PostGetWebsite 2 (Some "0xDEF")))
  = viewOf 1 (run false savedMidPoll boot).
Proof.
  assert (H : (2 <> 1)%nat) by discriminate.
  exact (proj1 (requests_do_not_interfere false 3010 1 2
                  (run false savedMidPoll boot) H)
               (PostGetWebsite 2 (Some "0xDEF")) eq_refl).
Defined.

(** ** One response per request, on the whole server *)

(** No turn other than the arrival of a request under that number makes
    more of it: a settled query turns the query in flight into one response
    or one timer or nothing, and a fired timer into one query in flight. *)
Lemma step_weight (ignoreUndefined : bool) (s : Server) (now : Z) (e : Event)
      (r : nat) :
  opens r e = false ->
  (weight r (step ignoreUndefined s (now, e)) <= weight r s)%nat.
Proof.
  intros He. unfold step. destruct (exited s); [lia|].
  destruct e as [ | |error| |id|event saved|event|error|request hash
                |request failure|request readyState connected|i|error|closeError
                | |error| |failure];
    try (unfold weight, answersTo, pendingPolls, inFlight; cbn; lia).
  - destruct saved; unfold weight, answersTo, pendingPolls, inFlight; cbn; lia.
  - unfold weight, answersTo, pendingPolls, inFlight. cbn.
    rewrite filter_app, length_app. cbn. lia.
  - cbn [opens] in He. unfold weight, answersTo, pendingPolls, inFlight. cbn.
    rewrite Nat.eqb_sym, He. lia.
  - unfold onQuerySettled.
    destruct (closureOf request s); [|lia].
    destruct (existsb _ _) eqn:Hex; [|lia].
    pose proof (checkUrl_shape now c
                  match failure with
                  | Some error => Rejected error
                  | None => Resolved (UrlEvent.findOne ignoreUndefined
                                        (transactionHash c) (urlEvents s))
                  end) as Hshape.
    destruct (checkUrl _ now c) as [c' es]. cbn [fst snd] in Hshape.
    rewrite performAll_spec.
    unfold weight, answersTo, pendingPolls, inFlight.
    cbn [answered timers querying resume].
    rewrite answers_app, polls_app, inFlight_resume, !length_app.
    destruct (Nat.eqb_spec request r) as [->|_].
    + apply existsb_filter in Hex. rewrite !length_map.
      destruct Hshape as [(-> & -> & _)|(-> & Hsent)]; cbn [List.length] in *; lia.
    + cbn [List.length]. lia.
  - cbn [opens] in He. unfold weight, answersTo, pendingPolls, inFlight. cbn.
    rewrite filter_app, map_app, length_app. cbn. rewrite He. cbn. lia.
  - unfold onTimer.
    destruct (nth_error (timers s) i) as [timer|] eqn:Hi; [|lia].
    pose proof (filter_dropNth (isPollOf r) _ _ _ Hi) as Hcount.
    unfold weight, answersTo, pendingPolls, inFlight.
    unfold isPollOf at 2 in Hcount.
    destruct (callback timer) as [request|].
    + destruct (closureOf request (clearTimer i s)); cbn in *.
      * rewrite (Nat.eqb_sym r request).
        destruct (Nat.eqb request r); cbn [List.length]; lia.
      * destruct (Nat.eqb request r); lia.
    + cbn in *. lia.
  - destruct closeError; unfold weight, answersTo, pendingPolls, inFlight; cbn; lia.
  - destruct failure; unfold weight, answersTo, pendingPolls, inFlight; cbn; lia.
Qed.

Lemma run_weight (ignoreUndefined : bool) (r : nat) (turns : list (Z * Event)) :
  forall s,
  Forall (fun turn => opens r (snd turn) = false) turns ->
  (weight r (run ignoreUndefined turns s) <= weight r s)%nat.
Proof.
  induction turns as [|[now e] turns IH]; intros s Hturns; [cbn; lia|].
  rewrite run_cons. inversion Hturns as [|x l He Hrest]; subst.
  specialize (IH (step ignoreUndefined s (now, e)) Hrest).
  pose proof (step_weight ignoreUndefined s now e r He). lia.
Qed.

(** X11.  A request that arrives under a number nothing of which is around
    (no response written, no timer pending, no query in flight) gets at most
    one response, however the turns of the event loop follow, as long as no
    other exchange arrives under the same number. *)
Theorem server_answers_a_request_at_most_once
  (ignoreUndefined : bool) (r : nat) (now : Z) (hash : option string)
  (turns : list (Z * Event)) (s : Server) :
  weight r s = 0%nat ->
  Forall (fun turn => opens r (snd turn) = false) turns ->
  (List.length
     (answersTo r (run ignoreUndefined turns
                       (step ignoreUndefined s (now, PostGetWebsite r hash))))
   <= 1)%nat.
Proof.
  intros Hfresh Hturns.
  pose proof (run_weight ignoreUndefined r turns
                (step ignoreUndefined s (now, PostGetWebsite r hash)) Hturns) as Hrun.
  assert (Hpost : (weight r (step ignoreUndefined s (now, PostGetWebsite r hash))
                   <= weight r s + 1)%nat).
  { unfold step. destruct (exited s); [lia|].
    unfold weight, answersTo, pendingPolls, inFlight. cbn.
    rewrite Nat.eqb_refl. cbn [List.length]. lia. }
  unfold weight in Hrun at 1. lia.
Qed.

Lemma server_answers_a_request_at_most_once_witness :
  le (List.length
     (answersTo 1
        (run false [(2, QuerySettled 1 None);
                    (1002, TimerFires 0%nat); (1004, QuerySettled 1 None);
                    (2500, ListenerData exampleEvent Saved);
                    (3006, TimerFires 0%nat); (3008, QuerySettled 1 None)]
             (step false (step false boot (0, Listening))
                   (0, PostGetWebsite 1 (Some "0xABC")))))) 1.
Proof.
  refine (server_answers_a_request_at_most_once false 1 0 (Some "0xABC")
            [(2, QuerySettled 1 None);
             (1002, TimerFires 0%nat); (1004, QuerySettled 1 None);
             (2500, ListenerData exampleEvent Saved);
             (3006, TimerFires 0%nat); (3008, QuerySettled 1 None)]
            (step false boot (0, Listening)) eq_refl _).
  repeat constructor.
Defined.

(** ** The URL answered belongs to the hash asked for *)

Section AnswersStored.

Variable ignoreUndefined : bool.

Lemma closureOf_In (r : nat) (s : Server) (c : Closure) :
  closureOf r s = Some c -> In (r, c) (closures s).
Proof.
  unfold closureOf.
  destruct (find (fun rc => Nat.eqb (fst rc) r) (closures s)) as [[r' c']|] eqn:H;
    [|discriminate].
  cbn. intros [= <-]. apply find_some in H as [Hin Hr].
  cbn in Hr. apply Nat.eqb_eq in Hr. now subst r'.
Qed.

Lemma findOne_selects (hash : option string) (c : UrlEvent.Collection)
      (doc : UrlEvent.t) :
  UrlEvent.findOne ignoreUndefined hash c = Some doc ->
  In doc c /\ selects ignoreUndefined hash doc.
Proof.
  destruct hash as [h|]; cbn [UrlEvent.findOne selects].
  - intros H. apply find_some in H as [Hin Hh]. split; [assumption|].
    now apply String.eqb_eq.
  - destruct ignoreUndefined; [|discriminate].
    destruct c as [|d c]; [discriminate|]. cbn. intros [= <-]. split; [now left|reflexivity].
Qed.

Lemma checkUrl_sent_url (q : QueryResult) (now : Z) (c : Closure)
      (resp : Response) (u : string) (p ts : Z) :
  In resp (sent (snd (checkUrl q now c))) ->
  body resp = UrlBody u p ts ->
  exists event, q = Resolved (Some event)
                /\ u = UrlEvent.url event /\ ts = UrlEvent.timestamp event.
Proof.
  destruct q as [[event|]|error]; cbn.
  - intros [<-|[]]. cbn. intros [= <- _ <-]. now exists event.
  - destruct (attempts c + 1 >=? maxAttempts); cbn.
    + intros [<-|[]]. discriminate.
    + intros [].
  - intros [].
Qed.

(** A state that holds no new closure and no new answer, and has lost no
    record, is as good as the one before. *)
Lemma stored_frame (P Q : list (nat * option string)) (s s' : Server) :
  (forall x, In x (closures s') -> In x (closures s)) ->
  (forall x, In x (answered s') -> In x (answered s)) ->
  (forall d, In d (urlEvents s) -> In d (urlEvents s')) ->
  closuresPosted P s /\ answersStored ignoreUndefined P s ->
  closuresPosted (P ++ Q) s' /\ answersStored ignoreUndefined (P ++ Q) s'.
Proof.
  intros Hc Ha Hu [HP HA]. split.
  - intros r c Hin. apply in_or_app. left. apply HP, Hc, Hin.
  - intros r resp u p ts Hin Hbody.
    destruct (HA r resp u p ts (Ha _ Hin) Hbody) as (doc & hash & H1 & H2 & H3 & H4 & H5).
    exists doc, hash. repeat split; auto. apply in_or_app. now left.
Qed.

Lemma step_stored (P : list (nat * option string)) (s : Server) (turn : Z * Event) :
  closuresPosted P s /\ answersStored ignoreUndefined P s ->
  closuresPosted (P ++ postedBy turn) (step ignoreUndefined s turn)
  /\ answersStored ignoreUndefined (P ++ postedBy turn) (step ignoreUndefined s turn).
Proof.
  intros Hinv. destruct turn as [now e]. unfold step.
  destruct (exited s); [now apply (stored_frame P _ s s)|].
  destruct e as [ | |error| |id|event saved|event|error|request hash
                |request failure|request readyState connected|i|error|closeError
                | |error| |failure];
    try (now apply (stored_frame P _ s)).
  - (* a notification *)
    destruct saved; apply (stored_frame P _ s); cbn; auto.
    intros d Hd. unfold UrlEvent.save. apply in_or_app. now left.
  - (* a request arrives *)
    destruct Hinv as [HP HA]. cbn [postedBy snd]. split.
    + intros r c. cbn. intros [[= <- <-]|Hin].
      * apply in_or_app. right. now left.
      * apply in_or_app. left. now apply HP.
    + intros r resp u p ts. cbn. intros Hin Hbody.
      destruct (HA r resp u p ts Hin Hbody) as (doc & h & H1 & H2 & H3 & H4 & H5).
      exists doc, h. repeat split; auto. apply in_or_app. now left.
  - (* a query settles *)
    unfold onQuerySettled.
    destruct (closureOf request s) as [c|] eqn:Hc; [|now apply (stored_frame P _ s)].
    destruct (existsb _ _); [|now apply (stored_frame P _ s)].
    destruct Hinv as [HP HA]. apply closureOf_In in Hc.
    pose proof (checkUrl_keeps_request
                  match failure with
                  | Some error => Rejected error
                  | None => Resolved (UrlEvent.findOne ignoreUndefined
                                        (transactionHash c) (urlEvents s))
                  end now c) as [Hhash _].
    pose proof (checkUrl_sent_url
                  match failure with
                  | Some error => Rejected error
                  | None => Resolved (UrlEvent.findOne ignoreUndefined
                                        (transactionHash c) (urlEvents s))
                  end now c) as Hsent.
    destruct (checkUrl _ now c) as [c' es]. cbn [fst snd] in Hhash, Hsent.
    rewrite performAll_spec. cbn [postedBy snd]. rewrite app_nil_r. split.
    + intros r c0. cbn. intros [[= <- <-]|Hin]; [|now apply HP].
      rewrite Hhash. now apply HP.
    + intros r resp u p ts. cbn [answered urlEvents resume].
      intros Hin Hbody. apply in_app_or in Hin as [Hin|Hin].
      * exact (HA r resp u p ts Hin Hbody).
      * apply in_map_iff in Hin as (resp' & [= <- <-] & Hin).
        destruct (Hsent resp' u p ts Hin Hbody) as (event & Hq & -> & ->).
        destruct failure as [error|]; [discriminate Hq|].
        injection Hq as Hq. apply findOne_selects in Hq as [Hdoc Hsel].
        exists event, (transactionHash c). repeat split; auto.
  - (* a health check *)
    destruct Hinv as [HP HA]. cbn [postedBy snd]. rewrite app_nil_r. split.
    + exact HP.
    + intros r resp u p ts. cbn. intros Hin Hbody.
      apply in_app_or in Hin as [Hin|[[= <- <-]|[]]].
      * exact (HA r resp u p ts Hin Hbody).
      * discriminate Hbody.
  - (* a timer fires *)
    unfold onTimer.
    destruct (nth_error (timers s) i) as [timer|]; [|now apply (stored_frame P _ s)].
    destruct (callback timer) as [request|]; [|now apply (stored_frame P _ s)].
    destruct (closureOf request (clearTimer i s)) as [c|] eqn:Hc;
      [|now apply (stored_frame P _ s)].
    apply closureOf_In in Hc. cbn in Hc.
    apply (stored_frame P _ s); cbn; auto.
    intros x [<-|Hin]; assumption.
  - destruct closeError; now apply (stored_frame P _ s).
  - destruct failure; now apply (stored_frame P _ s).
Qed.

Lemma run_stored (turns : list (Z * Event)) : forall P s,
  closuresPosted P s /\ answersStored ignoreUndefined P s ->
  closuresPosted (P ++ flat_map postedBy turns) (run ignoreUndefined turns s)
  /\ answersStored ignoreUndefined (P ++ flat_map postedBy turns)
                   (run ignoreUndefined turns s).
Proof.
  induction turns as [|turn turns IH]; intros P s Hinv.
  - cbn. now rewrite app_nil_r.
  - rewrite run_cons. cbn [flat_map]. rewrite app_assoc.
    apply IH. now apply step_stored.
Qed.

(** X12.  From start-up on, every 200 body the server writes to a request
    carries the [url] and [timestamp] of a record that is in the collection
    and that the filter of that request selects: when the request was posted
    with a hash, a record with exactly that transaction hash. *)
Theorem answered_url_is_stored_under_the_posted_hash
  (turns : list (Z * Event)) (r : nat) (resp : Response) (u : string) (p ts : Z) :
  In (r, resp) (answered (run ignoreUndefined turns boot)) ->
  body resp = UrlBody u p ts ->
  exists doc hash,
    In doc (urlEvents (run ignoreUndefined turns boot))
    /\ UrlEvent.url doc = u
    /\ UrlEvent.timestamp doc = ts
    /\ In (r, hash) (flat_map postedBy turns)
    /\ selects ignoreUndefined hash doc.
Proof.
  assert (Hboot : closuresPosted [] boot /\ answersStored ignoreUndefined [] boot).
  { split; [intros ? ? []|intros ? ? ? ? ? []]. }
  destruct (run_stored turns [] boot Hboot) as [_ HA].
  exact (HA r resp u p ts).
Qed.

End AnswersStored.

Lemma answered_url_is_stored_witness :
  exists doc,
    In doc (urlEvents (run false savedMidPoll boot))
    /\ UrlEvent.url doc = "https://example.com/page"
    /\ UrlEvent.transactionHash doc = "0xABC".
Proof.
  destruct (answered_url_is_stored_under_the_posted_hash false savedMidPoll 1
              {| status := 200; body := UrlBody "https://example.com/page" 3008 2500 |}
              "https://example.com/page" 3008 2500)
    as (doc & hash & Hin & Hurl & _ & Hposted & Hsel).
  - cbn. now left.
  - reflexivity.
  - exists doc. repeat split; [exact Hin|exact Hurl|].
    cbn in Hposted. destruct Hposted as [[= <-]|[]]. exact Hsel.
Defined.

(** ** The health route *)

(** X13.  While the process runs, [GET /health] always answers 200 with
    status ["ok"], also when neither the store nor the node is connected;
    [mongoStatus] is ["connected"] exactly when [readyState] is 1 (so a
    connection still being opened or closed counts as disconnected) and
    [web3Status] exactly when the provider says it is connected; and the
    route changes nothing but the response it writes. *)
Theorem health_always_answers_ok
  (ignoreUndefined : bool) (now : Z) (r : nat) (readyState : Z) (connected : bool)
  (s : Server) :
  exited s = None ->
  let s' := step ignoreUndefined s (now, GetHealth r readyState connected) in
  exists mongoStatus web3Status,
    answered s' = answered s
                  ++ [(r, {| status := 200;
                             body := HealthBody "ok" now mongoStatus web3Status |})]
    /\ (mongoStatus = "connected" <-> readyState = 1)
    /\ (mongoStatus = "disconnected" <-> readyState <> 1)
    /\ (web3Status = "connected" <-> connected = true)
    /\ (web3Status = "disconnected" <-> connected = false)
    /\ urlEvents s' = urlEvents s /\ timers s' = timers s
    /\ closures s' = closures s /\ querying s' = querying s
    /\ subscriptions s' = subscriptions s /\ console s' = console s
    /\ exited s' = None.
Proof.
  intros Hrun s'.
  assert (Hs' : s' = onGetHealth now r readyState connected s)
    by (unfold s', step; now rewrite Hrun).
  exists (healthStatus (readyState =? 1)), (healthStatus connected).
  rewrite Hs'. split; [reflexivity|].
  split; [|split; [|split; [|split]]].
  - destruct (Z.eqb_spec readyState 1); cbn; split; intros H; congruence.
  - destruct (Z.eqb_spec readyState 1); cbn; split; intros H; congruence.
  - destruct connected; cbn; split; intros H; congruence.
  - destruct connected; cbn; split; intros H; congruence.
  - cbn. now repeat split.
Qed.

Lemma health_always_answers_ok_witness :
  answersTo 9 (step false (step false boot (0, Listening)) (50, GetHealth 9 2 false))
  = [{| status := 200; body := HealthBody "ok" 50 "disconnected" "disconnected" |}].
Proof.
  destruct (health_always_answers_ok false 50 9 2 false
              (step false boot (0, Listening)) eq_refl)
    as (mongo & web3 & Hans & _ & Hmongo & _ & Hweb3 & _).
  unfold answersTo. rewrite Hans.
  rewrite (proj2 Hmongo) by discriminate. rewrite (proj2 Hweb3) by reflexivity.
  reflexivity.
Defined.

(** ** The lookup against the collection *)

Section LookupStore.

Variable ignoreUndefined : bool.
Variable world : nat -> StorePoll.

(** Polling the collection is polling the oracle made of the collection's
    answers to the filter of the closure. *)
Lemma pollStore_oracle (fuel : nat) : forall (i : nat) (t : Z) (c : Closure),
  pollStore fuel ignoreUndefined world i t c
  = pollLoop fuel (oracleOf ignoreUndefined (transactionHash c) world) i t c.
Proof.
  induction fuel as [|fuel IH]; intros i t c; [reflexivity|].
  cbn [pollStore pollLoop oracleOf result latency lateness].
  change (match queryError (world i) with
          | Some error => Rejected error
          | None => Resolved (UrlEvent.findOne ignoreUndefined (transactionHash c)
                                (collectionNow (world i)))
          end) with (findOneFor ignoreUndefined c (world i)).
  pose proof (checkUrl_keeps_request (findOneFor ignoreUndefined c (world i))
                (t + Z.of_N (queryLatency (world i))) c) as [Hhash _].
  destruct (checkUrl (findOneFor ignoreUndefined c (world i))
                     (t + Z.of_N (queryLatency (world i))) c) as [c' es].
  cbn [fst] in Hhash.
  destruct (scheduled es) as [|delay rest]; [reflexivity|].
  f_equal. rewrite IH. now rewrite Hhash.
Qed.

Lemma lookupStore_lookup (t0 : Z) (hash : option string) :
  lookupStore ignoreUndefined world t0 hash
  = lookup (oracleOf ignoreUndefined hash world) t0 hash.
Proof.
  unfold lookupStore, lookup. cbn [postGetWebsite].
  now rewrite pollStore_oracle.
Qed.

Lemma find_hasHash_present (hash : string) (c : UrlEvent.Collection)
      (doc : UrlEvent.t) :
  In doc c -> UrlEvent.transactionHash doc = hash ->
  exists event, find (UrlEvent.hasHash hash) c = Some event.
Proof.
  intros Hin Hhash.
  destruct (find (UrlEvent.hasHash hash) c) as [event|] eqn:Hfind;
    [now exists event|].
  pose proof (find_none _ _ Hfind doc Hin) as Hno.
  unfold UrlEvent.hasHash in Hno. rewrite Hhash, String.eqb_refl in Hno.
  discriminate Hno.
Qed.

(** C2.  A request is posted with a hash; at its first [k] polls the
    collection holds no record with that hash, and at the next poll, still
    within the 30 allowed, it holds one (saved in the meantime, or there
    from the start when [k] is 0); no query fails.  Then that poll is the
    last invocation ([k+1] queries in all, no timer set), and it writes the
    only response: status 200 with the [url] and [timestamp] of the record
    [findOne] returns, which is a record of the collection with the posted
    hash, and the one given when no other record has that hash.  The
    [processTime] is the time from the arrival of the request to that poll,
    made of the [k] rounds actually waited: exactly [k] * 1000 ms when queries
    are instant and timers punctual. *)
Theorem C2_stored_record_is_found_and_answered
  (t0 : Z) (hash : string) (k : nat) (doc : UrlEvent.t) :
  (k < Z.to_nat maxAttempts)%nat ->
  (forall i, (i <= k)%nat -> queryError (world i) = None) ->
  (forall i d, (i < k)%nat -> In d (collectionNow (world i)) ->
               UrlEvent.transactionHash d <> hash) ->
  In doc (collectionNow (world k)) ->
  UrlEvent.transactionHash doc = hash ->
  let r := lookupStore ignoreUndefined world t0 (Some hash) in
  let processTime :=
    settledAt (oracleOf ignoreUndefined (Some hash) world) t0 k - t0 in
  exists event,
    UrlEvent.findOne ignoreUndefined (Some hash) (collectionNow (world k))
    = Some event
    /\ In event (collectionNow (world k))
    /\ UrlEvent.transactionHash event = hash
    /\ ((forall d, In d (collectionNow (world k)) ->
                   UrlEvent.transactionHash d = hash -> d = doc) ->
        event = doc)
    /\ List.length (snd r) = S k
    /\ (exists last,
          nth_error (snd r) k = Some last
          /\ inv_now last - startTime (inv_closure last) = processTime
          /\ scheduled (inv_effects last) = [])
    /\ responses r =
       [{| status := 200;
           body := UrlBody (UrlEvent.url event) processTime
                           (UrlEvent.timestamp event) |}]
    /\ ((forall i, (i <= k)%nat ->
           queryLatency (world i) = 0%N /\ timerLateness (world i) = 0%N) ->
        processTime = Z.of_nat k * 1000).
Proof.
  intros Hk Hok Hnone Hin Hhash r processTime.
  destruct (find_hasHash_present hash _ doc Hin Hhash) as [event Hfind].
  assert (Hevent : In event (collectionNow (world k))
                   /\ UrlEvent.transactionHash event = hash)
    by (apply (findOne_sound ignoreUndefined); exact Hfind).
  assert (Hempty : forall i, (i < k)%nat ->
            result (oracleOf ignoreUndefined (Some hash) world i) = Resolved None).
  { intros i Hi. cbn [oracleOf result]. rewrite Hok by lia.
    cbn [UrlEvent.findOne]. rewrite find_hasHash_absent; [reflexivity|].
    intros d Hd. now apply (Hnone i). }
  assert (Hfound : result (oracleOf ignoreUndefined (Some hash) world k)
                   = Resolved (Some event)).
  { cbn [oracleOf result]. rewrite Hok by lia.
    cbn [UrlEvent.findOne]. now rewrite Hfind. }
  destruct (found_poll_answers_200 (oracleOf ignoreUndefined (Some hash) world)
              t0 (Some hash) k event Hk Hempty Hfound)
    as (Hlen & (last & Hlast & Hnow & Htimer) & Hres & _ & Hpunctual).
  assert (Hstart : startTime (inv_closure last) = t0).
  { destruct (run_shape (oracleOf ignoreUndefined (Some hash) world) t0 (Some hash))
      as (k' & final & Hk' & Hrun & Hq & Hcase).
    rewrite Hrun in Hlen, Hlast.
    rewrite length_app, length_map, length_seq in Hlen. cbn in Hlen.
    assert (k' = k) by lia. subst k'.
    rewrite nth_error_app2 in Hlast by (rewrite length_map, length_seq; lia).
    rewrite length_map, length_seq, Nat.sub_diag in Hlast. injection Hlast as <-.
    destruct Hcase as [(_ & _ & ->)|[(ev & _ & ->)|(err & _ & ->)]]; reflexivity. }
  exists event. unfold r. rewrite lookupStore_lookup.
  split; [exact Hfind|].
  split; [apply Hevent|]. split; [apply Hevent|].
  split; [intros Huniq; apply Huniq; apply Hevent|].
  split; [exact Hlen|].
  split; [exists last; repeat split; [exact Hlast| |exact Htimer]|].
  { rewrite Hstart, Hnow. reflexivity. }
  split; [exact Hres|].
  intros Hzero. apply Hpunctual. intros i Hi. exact (Hzero i Hi).
Qed.

End LookupStore.

Lemma C2_stored_record_witness :
  responses (lookupStore false savedBeforeFourthPoll 0 (Some "0xABC"))
  = [{| status := 200; body := UrlBody "https://example.com/page" 3000 3200 |}]
  /\ List.length (snd (lookupStore false savedBeforeFourthPoll 0 (Some "0xABC")))
     = 4%nat.
Proof.
  destruct (C2_stored_record_is_found_and_answered false savedBeforeFourthPoll
              0 "0xABC" 3 exampleRecord)
    as (event & Hfind & _ & _ & _ & Hlen & _ & Hres & _).
  - vm_compute. lia.
  - reflexivity.
  - intros i d Hi. do 3 (destruct i as [|i]; [intros []|]). lia.
  - now left.
  - reflexivity.
  - cbn in Hfind. injection Hfind as <-.
    split; [|exact Hlen]. rewrite Hres. reflexivity.
Defined.

(** ** Transport errors and the restart of the listener *)

Lemma run_listener_errors (ignoreUndefined : bool) (now : Z) (error : string)
      (n : nat) : forall s,
  exited s = None ->
  timers (run ignoreUndefined (repeat (now, ListenerError error) n) s)
  = timers s ++ repeat restartTimer n
  /\ subscriptions (run ignoreUndefined (repeat (now, ListenerError error) n) s)
     = subscriptions s
  /\ exited (run ignoreUndefined (repeat (now, ListenerError error) n) s) = None.
Proof.
  induction n as [|n IH]; intros s Hrun.
  - cbn. now rewrite app_nil_r.
  - cbn [repeat]. rewrite run_cons.
    assert (Hstep : step ignoreUndefined s (now, ListenerError error) = onError error s)
      by (unfold step; now rewrite Hrun).
    rewrite Hstep.
    destruct (IH (onError error s)) as (Ht & Hs & He); [exact Hrun|].
    rewrite Ht, Hs, He. cbn [onError setTimeout log timers subscriptions].
    rewrite <- app_assoc. now repeat split.
Qed.

(** C5 as worded fails on the code for two of its three triggers: the
    provider's ['end'] callback and a failed save inside the ['data']
    callback only log; no timer is set, so the subscriber is not waiting to
    restart after them. *)
Lemma C5_end_and_failed_save_schedule_nothing :
  let s := step false boot (0, Listening) in
  ~ recovering (step false s (1, ProviderEnd))
  /\ ~ recovering (step false s (1, ListenerData exampleEvent (SaveFailed "write failed"))).
Proof. cbn. split; intros []. Qed.

(** C5.  While the process runs with a subscription open, a transport-level
    error (the provider's ['error'], which web3 also hands to the ['error']
    callback of every open subscription) leaves the subscriber waiting to
    restart: one [setTimeout(startEventListener, 5000)] per open
    subscription is pending and nothing else but the console has changed;
    when the first of these timers fires [startEventListener] runs again and
    opens a subscription, and the process is still running.  Any ['error']
    of the listener alone sets exactly that one timer too.  The provider's
    ['end'] callback and a failed save of a notification set no timer and
    open no subscription. *)
Theorem C5_transport_error_schedules_restart
  (ignoreUndefined : bool) (s : Server) (now : Z) (error : string) :
  exited s = None ->
  (1 <= subscriptions s)%nat ->
  let s1 := run ignoreUndefined (transportError now error s) s in
  recovering s1
  /\ timers s1 = timers s ++ repeat restartTimer (subscriptions s)
  /\ subscriptions s1 = subscriptions s
  /\ exited s1 = None
  /\ (forall later,
        let s2 := step ignoreUndefined s1 (later, TimerFires (List.length (timers s))) in
        subscriptions s2 = S (subscriptions s)
        /\ timers s2 = timers s ++ repeat restartTimer (subscriptions s - 1)
        /\ exited s2 = None)
  /\ (forall t listenerError,
        timers (step ignoreUndefined s (t, ListenerError listenerError))
        = timers s ++ [restartTimer])
  /\ (forall t event saveError e,
        In e [ProviderEnd; ListenerData event (SaveFailed saveError)] ->
        timers (step ignoreUndefined s (t, e)) = timers s
        /\ subscriptions (step ignoreUndefined s (t, e)) = subscriptions s).
Proof.
  intros Hrun Hsub s1.
  assert (Hprov : step ignoreUndefined s (now, ProviderError error)
                  = onProviderError error s)
    by (unfold step; now rewrite Hrun).
  destruct (run_listener_errors ignoreUndefined now error (subscriptions s)
              (onProviderError error s) Hrun) as (Ht & Hs & He).
  assert (Htimers : timers s1 = timers s ++ repeat restartTimer (subscriptions s)).
  { unfold s1, transportError. rewrite run_cons, Hprov. exact Ht. }
  assert (Hsubs : subscriptions s1 = subscriptions s).
  { unfold s1, transportError. rewrite run_cons, Hprov. exact Hs. }
  assert (Hlive : exited s1 = None).
  { unfold s1, transportError. rewrite run_cons, Hprov. exact He. }
  destruct (subscriptions s) as [|n] eqn:Hn; [lia|]. cbn [repeat] in Htimers.
  split; [|split; [exact Htimers|split; [exact Hsubs|split; [exact Hlive|split; [|split]]]]].
  - unfold recovering. rewrite Htimers. apply in_or_app. right. now left.
  - intros later s2.
    assert (Hs2 : s2 = onTimer (List.length (timers s)) s1)
      by (unfold s2, step; now rewrite Hlive).
    rewrite Hs2. unfold onTimer. rewrite Htimers.
    rewrite nth_error_app2, Nat.sub_diag by lia.
    cbn [nth_error restartTimer callback].
    cbn [startEventListener log clearTimer subscriptions timers exited].
    rewrite Htimers, dropNth_split, Hsubs, Hlive.
    replace (S n - 1)%nat with n by lia. now repeat split.
  - intros t listenerError. unfold step. now rewrite Hrun.
  - intros t event saveError e He'. unfold step. rewrite Hrun.
    destruct He' as [<-|[<-|[]]]; now split.
Qed.

Lemma C5_transport_error_witness :
  timers (run false (transportError 7 "socket hang up" (step false boot (0, Listening)))
              (step false boot (0, Listening)))
  = [restartTimer]
  /\ subscriptions
       (step false
             (run false (transportError 7 "socket hang up" (step false boot (0, Listening)))
                  (step false boot (0, Listening)))
             (5007, TimerFires 0))
     = 2%nat.
Proof.
  destruct (C5_transport_error_schedules_restart false
              (step false boot (0, Listening)) 7 "socket hang up" eq_refl)
    as (_ & Htimers & _ & _ & Hfire & _).
  - cbn. lia.
  - split; [exact Htimers|].
    destruct (Hfire 5007) as (Hsubs & _). exact Hsubs.
Defined.

(** ** The endpoint of the provider *)

(** X14.  Whatever [process.env.BSC_TESTNET_WSS] holds, the "not defined"
    guard of [createWeb3WSProvider] never fires: the function is exactly the
    call of the provider's constructor, with reconnect options auto, 5000 ms
    and 5 attempts, on an endpoint that is never empty; it throws only what
    the constructor throws.  The endpoint is the variable when it is set and
    not empty, and the public node's address otherwise. *)
Theorem provider_guard_never_fires
  {Provider : Type}
  (WebsocketProvider : string -> ReconnectOptions -> string + Provider)
  (env_BSC_TESTNET_WSS : option string) :
  createWeb3WSProvider WebsocketProvider (WSS_ENDPOINT env_BSC_TESTNET_WSS)
  = WebsocketProvider (WSS_ENDPOINT env_BSC_TESTNET_WSS)
      {| reconnect_auto := true; reconnect_delay := 5000;
         reconnect_maxAttempts := 5; reconnect_onTimeout := false |}
  /\ WSS_ENDPOINT env_BSC_TESTNET_WSS <> ""
  /\ (forall url, env_BSC_TESTNET_WSS = Some url -> url <> "" ->
                  WSS_ENDPOINT env_BSC_TESTNET_WSS = url)
  /\ (env_BSC_TESTNET_WSS = None \/ env_BSC_TESTNET_WSS = Some "" ->
      WSS_ENDPOINT env_BSC_TESTNET_WSS = "wss://bsc-testnet.publicnode.com").
Proof.
  destruct env_BSC_TESTNET_WSS as [[|a rest]|]; cbn;
    (split; [reflexivity|]); repeat split; try discriminate.
  - intros url [= <-] H. congruence.
  - intros url [= <-] _. reflexivity.
  - intros [H|H]; discriminate H.
Qed.

Lemma provider_guard_never_fires_witness :
  createWeb3WSProvider sampleWebsocketProvider (WSS_ENDPOINT (Some "wss://example.org/ws"))
  = inr ("wss://example.org/ws", reconnect)
  /\ createWeb3WSProvider sampleWebsocketProvider (WSS_ENDPOINT (Some "not a url"))
     = inl "Invalid URL".
Proof.
  split.
  - rewrite (proj1 (provider_guard_never_fires sampleWebsocketProvider
                      (Some "wss://example.org/ws"))).
    reflexivity.
  - rewrite (proj1 (provider_guard_never_fires sampleWebsocketProvider
                      (Some "not a url"))).
    reflexivity.
Defined.
